(** * PastaPass server: the wallet stamp engine

    A shallow embedding of [src/server/index.js] (the variant with the
    static QR secret, the two minute cooldown and the [customers] /
    [wallets] tables), and the properties of its two routes,
    [POST /api/signup] and [POST /api/stamps/add].

    - JSON values, truthiness, [String] and [||] are written out as
      JavaScript has them; a call that may throw returns an [Outcome].
    - The database is a pair of tables plus a journal of the statements the
      handlers issued; every data helper of the source is one monadic
      operation that journals its statement and runs it, with the
      constraints of the schema ([PRIMARY KEY], [UNIQUE], [FOREIGN KEY])
      checked by the inserts.
    - A handler is a computation in a state-and-exception monad; the
      [try]/[catch] of a route turns an exception into its 500 reply and
      keeps the store as the statements before the throw left it.
    - The clock is an input: a handler receives the readings its [Date]
      calls return, one field per call site.
    - The token of a stamp request is any JSON value.  The other fields of
      a body ([identifier], [name], [email], [phone]) are taken to be absent,
      [null] or a string: what the database drivers make of a number, a
      boolean, an array or an object bound as a parameter is not code of this
      repository, and nothing below speaks about such requests.

    After the two routes come the parts of the repository around them: the
    stamp route of the first server in the same file (a counter per
    customer, no token, no cooldown) and of its draft, the two push routes
    with their table of device tokens, and the schema bootstrap. *)

From Stdlib Require Import ZArith String List.
From stdpp Require Import base option list strings gmap.

Open Scope Z_scope.

(** ** JavaScript values *)

Module Js.

(** The values [JSON.parse] can put in a field of a body, plus [undefined]
    for a field that is absent.  A number is kept as the text [String]
    prints for it ([123], [0.5], [1e+21]; [0] for both zeros), which is all
    the code reads of a number; every number is some [Num text], though not
    every text is a number's.  An object is kept with its own fields. *)
#[warnings="-register-all"] Inductive Val : Type :=
| Undefined
| Null
| Bool (b : bool)
| Num (text : string)
| Str (s : string)
| Arr (items : list Val)
| Obj (fields : list (string * Val)).

(** ToBoolean.  Of the numbers JSON can write only the two zeros are falsy;
    an array or an object is truthy, empty or not. *)
Definition truthy (v : Val) : bool :=
  match v with
  | Undefined | Null => false
  | Bool b => b
  | Num text => negb (String.eqb text "0")
  | Str s => negb (String.eqb s "")
  | Arr _ | Obj _ => true
  end.

(** [String(v)], or [None] when the conversion throws a [TypeError].  An
    array is joined with commas, [null] and [undefined] items giving the
    empty string.  An object goes through [toString]: the inherited one
    gives [[object Object]]; an own field [toString] hides it and, being no
    function, leaves the object without a primitive value. *)
Fixpoint String (v : Val) : option string :=
  match v with
  | Undefined => Some "undefined"%string
  | Null => Some "null"%string
  | Bool true => Some "true"%string
  | Bool false => Some "false"%string
  | Num text => Some text
  | Str s => Some s
  | Arr items =>
      (fix join (items : list Val) : option string :=
         match items with
         | [] => Some ""%string
         | item :: rest =>
             match match item with
                   | Undefined | Null => Some ""%string
                   | _ => String item
                   end,
                   rest with
             | Some a, [] => Some a
             | Some a, _ :: _ =>
                 match join rest with
                 | Some b => Some (a ++ "," ++ b)%string
                 | None => None
                 end
             | None, _ => None
             end
         end) items
  | Obj fields =>
      if existsb (λ field, String.eqb (fst field) "toString") fields
      then None
      else Some "[object Object]"%string
  end.

(** A field that is [null] or a string: [None] is [null]. *)
Definition truthy_str (s : option string) : bool :=
  match s with
  | Some s => negb (String.eqb s "")
  | None => false
  end.

(** [a || b] on such fields. *)
Definition or (a b : option string) : option string :=
  if truthy_str a then a else b.

(** [n || 0] on a nullable number column. *)
Definition or0 (n : option Z) : Z :=
  match n with
  | Some n => if n =? 0 then 0 else n
  | None => 0
  end.

(** [s.includes(sub)]. *)
Definition includes (s sub : string) : bool :=
  match String.index 0 sub s with
  | Some _ => true
  | None => false
  end.

(** [Math.ceil(a / b)] for integers [a] and a positive integer [b]. *)
Definition ceil_div (a b : Z) : Z := - ((- a) / b).

(** [Math.round(a / b)] for integers [a] and a positive integer [b]:
    the nearest integer, halves going up. *)
Definition round_div (a b : Z) : Z := (2 * a + b) / (2 * b).

End Js.

(** ** Exceptions *)

Inductive Exn : Type :=
| SqliteConstraint
| TypeError.

(** What a call gives: the value it returns, or the exception it throws. *)
Inductive Outcome (A : Type) : Type :=
| Returned (a : A)
| Thrown (e : Exn).
Arguments Returned {A} a.
Arguments Thrown {A} e.

(** ** Configuration *)

(** [process.env.QR_SECRET], unset or a string. *)
Record Env : Type := { env_QR_SECRET : option string }.

(** [const QR_SECRET = process.env.QR_SECRET || "PASTA123"]. *)
Definition QR_SECRET (env : Env) : string :=
  match Js.or (env_QR_SECRET env) (Some "PASTA123"%string) with
  | Some s => s
  | None => "PASTA123"
  end.

Definition COOLDOWN_MS : Z := 2 * 60 * 1000.

(** [function isValidStaticToken(t) { return t && String(t) === String(QR_SECRET); }],
    read as the condition of the [if] that calls it: a falsy [t] is returned
    as it is, without a call of [String]; [String(QR_SECRET)] is the secret
    itself. *)
Definition isValidStaticToken (env : Env) (t : Js.Val) : Outcome bool :=
  if Js.truthy t
  then match Js.String t with
       | Some shown => Returned (String.eqb shown (QR_SECRET env))
       | None => Thrown TypeError
       end
  else Returned false.

(** ** The tables *)

(** A row of [customers].  Timestamps are the ISO strings [toISOString]
    writes; a string is kept as the millisecond count it denotes, which is
    what [Date.parse] gives back. *)
Record Customer : Type := {
  c_id : string;
  c_name : option string;
  c_email : option string;
  c_phone : option string;
  c_created_at : option Z
}.

(** A row of [wallets], without its key [customer_id]. *)
Record Wallet : Type := {
  stamps : option Z;
  last_redeemed_at : option Z;
  last_stamped_at : option Z
}.

(** The statements of the data helpers, with their arguments. *)
Inductive Stmt : Type :=
| SelectCustomer (identifier : string)
| InsertCustomer (row : Customer)
| SelectWallet (customerId : string)
| InsertWallet (customerId : string)
| UpdateWallet (customerId : string) (stamps : Z) (lastRedeemedAt lastStampedAt : option Z).

(** [customers] in rowid order, [wallets] by primary key, and the
    statements issued so far, newest first. *)
Record Store : Type := {
  customers : list Customer;
  wallets : gmap string Wallet;
  journal : list Stmt
}.

Definition fresh : Store :=
  {| customers := []; wallets := ∅; journal := [] |}.

Definition is_write (s : Stmt) : bool :=
  match s with
  | SelectCustomer _ | SelectWallet _ => false
  | InsertCustomer _ | InsertWallet _ | UpdateWallet _ _ _ _ => true
  end.

Definition is_update (s : Stmt) : bool :=
  match s with
  | UpdateWallet _ _ _ _ => true
  | _ => false
  end.

(** ** The handler monad: a store threaded through, and exceptions *)

Definition M (A : Type) : Type := Store → Outcome A * Store.

#[export] Instance M_ret : MRet M := λ A a s, (Returned a, s).

#[export] Instance M_bind : MBind M := λ A B f m s,
  match m s with
  | (Returned a, s') => f a s'
  | (Thrown e, s') => (Thrown e, s')
  end.

Definition throw {A : Type} (e : Exn) : M A := λ s, (Thrown e, s).

(** A call that touches no table, inside a handler. *)
Definition call {A : Type} (o : Outcome A) : M A := λ s, (o, s).

(** [try { body } catch (e) { return res.status(500).json(...) }]. *)
Definition try_catch {A : Type} (body : M A) (handler : Exn → A) : Store → A * Store :=
  λ s, match body s with
       | (Returned a, s') => (a, s')
       | (Thrown e, s') => (handler e, s')
       end.

(** Every statement goes to the journal before it runs. *)
Definition issue (q : Stmt) : M unit := λ s,
  (Returned tt,
   {| customers := customers s; wallets := wallets s; journal := q :: journal s |}).

Definition set_customers (cs : list Customer) : M unit := λ s,
  (Returned tt, {| customers := cs; wallets := wallets s; journal := journal s |}).

Definition set_wallets (ws : gmap string Wallet) : M unit := λ s,
  (Returned tt, {| customers := customers s; wallets := ws; journal := journal s |}).

Definition get_store : M Store := λ s, (Returned s, s).

(** ** Data helpers *)

(** [WHERE email = ? OR phone = ?]: a [NULL] column matches nothing. *)
Definition matches (identifier : string) (c : Customer) : bool :=
  bool_decide (c_email c = Some identifier) || bool_decide (c_phone c = Some identifier).

(** The row [SELECT ... WHERE email = ? OR phone = ? LIMIT 1] returns.
    [email] and [phone] are [UNIQUE], so each has an index, and SQLite
    answers the [OR] from the two indexes, one term after the other: the row
    with that email if there is one, else the row with that phone. *)
Definition find_customer (identifier : string) (cs : list Customer) : option Customer :=
  match List.find (λ c, bool_decide (c_email c = Some identifier)) cs with
  | Some c => Some c
  | None => List.find (λ c, bool_decide (c_phone c = Some identifier)) cs
  end.

Definition getCustomerByIdentifier (identifier : string) : M (option Customer) :=
  issue (SelectCustomer identifier) ;;
  s ← get_store;
  mret (find_customer identifier (customers s)).

(** [id TEXT PRIMARY KEY, email TEXT UNIQUE, phone TEXT UNIQUE]: does the
    new row collide with the stored row [c]?  [NULL]s never collide. *)
Definition collides (new c : Customer) : bool :=
  bool_decide (c_id c = c_id new)
  || match c_email new with
     | Some e => bool_decide (c_email c = Some e)
     | None => false
     end
  || match c_phone new with
     | Some p => bool_decide (c_phone c = Some p)
     | None => false
     end.

(** [createCustomer({ id, name, email, phone })], with [created] the reading of
    its [new Date()]. *)
Definition createCustomer (created : Z) (id : string) (name email phone : option string)
  : M unit :=
  let row := {| c_id := id; c_name := name; c_email := email; c_phone := phone;
                c_created_at := Some created |} in
  issue (InsertCustomer row) ;;
  s ← get_store;
  if existsb (collides row) (customers s)
  then throw SqliteConstraint
  else set_customers (customers s ++ [row]).

Definition getWallet (customerId : string) : M (option Wallet) :=
  issue (SelectWallet customerId) ;;
  s ← get_store;
  mret (wallets s !! customerId).

Definition new_wallet : Wallet :=
  {| stamps := Some 0; last_redeemed_at := None; last_stamped_at := None |}.

(** [INSERT INTO wallets ... VALUES (?, 0, NULL, NULL)].  [customer_id] is
    the primary key, and [FOREIGN KEY(customer_id) REFERENCES customers(id)],
    which better-sqlite3 enforces, wants a customer with that id. *)
Definition createWallet (customerId : string) : M unit :=
  issue (InsertWallet customerId) ;;
  s ← get_store;
  match wallets s !! customerId with
  | Some _ => throw SqliteConstraint
  | None =>
      if existsb (λ c, String.eqb (c_id c) customerId) (customers s)
      then set_wallets (<[customerId := new_wallet]> (wallets s))
      else throw SqliteConstraint
  end.

(** [UPDATE wallets SET ... WHERE customer_id = ?]: no row, no change.  The
    two timestamps are [null] or a non-empty ISO string, so [x || null] is [x]. *)
Definition updateWallet (customerId : string) (stamps : Z)
    (lastRedeemedAt lastStampedAt : option Z) : M unit :=
  issue (UpdateWallet customerId stamps lastRedeemedAt lastStampedAt) ;;
  s ← get_store;
  match wallets s !! customerId with
  | Some _ =>
      set_wallets (<[customerId := {| stamps := Some stamps;
                                      last_redeemed_at := lastRedeemedAt;
                                      last_stamped_at := lastStampedAt |}]> (wallets s))
  | None => mret tt
  end.

(** ** Requests, clock readings and replies *)

(** The readings of the clock one request takes, by call site: [created] is
    the [new Date()] of [createCustomer], [now] the [Date.now()] of the
    cooldown check, [redeemedAt] and [stampedAt] the [new Date()] calls that
    fill [lastRedeemedAt] and [lastStampedAt] of the wallet update. *)
Record Readings : Type := {
  created : Z;
  now : Z;
  redeemedAt : Z;
  stampedAt : Z
}.

(** [const { name = null, email = null, phone = null } = req.body || {}],
    each field absent, [null] (both [None]) or a string. *)
Record SignupBody : Type := {
  name : option string;
  email : option string;
  phone : option string
}.

(** [const { identifier, token } = req.body || {}]: [identifier] absent,
    [null] (both [None]) or a string, [token] any JSON value. *)
Record StampBody : Type := {
  identifier : option string;
  token : Js.Val
}.

Inductive Response : Type :=
| Error (status : Z) (error : string)
| SignedUp (id : string) (name email phone : option string) (stamps : Z)
| Cooldown (customerId : string) (stamps : Z) (cooldownMinutes secondsLeft : Z)
| Stamped (customerId : string) (stamps : Z) (redeemed : bool) (rewardMessage : option string).

Definition status (r : Response) : Z :=
  match r with
  | Error status _ => status
  | _ => 200
  end.

Definition rewardText : string :=
  "🎉 Congratulations — you’ve earned a FREE pasta for being a loyal customer!".

(** ** The routes *)

(** The identifier when it is truthy: [if (!identifier) return ...] takes
    the [None] side. *)
Definition present (s : option string) : option string :=
  if Js.truthy_str s then s else None.

(** [customer.id] on what the second lookup returned; [null] has no [id]. *)
Definition deref (customer : option Customer) : M Customer :=
  match customer with
  | Some c => mret c
  | None => throw TypeError
  end.

(** [let customer = await getCustomerByIdentifier(identifier);
     if (!customer) { await createCustomer({...}); customer = await getCustomerByIdentifier(identifier); }],
    up to the first use of [customer.id]; [created] is the clock reading of
    [createCustomer]. *)
Definition getOrCreateCustomer (created : Z) (identifier : string)
    (name email phone : option string) : M Customer :=
  found ← getCustomerByIdentifier identifier;
  match found with
  | Some c => mret c
  | None =>
      createCustomer created identifier name email phone ;;
      again ← getCustomerByIdentifier identifier;
      deref again
  end.

(** [let wallet = await getWallet(id); if (!wallet) { await createWallet(id); wallet = {...} }] *)
Definition getOrCreateWallet (id : string) : M Wallet :=
  wallet ← getWallet id;
  match wallet with
  | Some w => mret w
  | None => createWallet id ;; mret new_wallet
  end.

Definition signup_try (t : Readings) (b : SignupBody) : M Response :=
  match present (Js.or (email b) (phone b)) with
  | None => mret (Error 400 "Missing email or phone")
  | Some identifier =>
      customer ← getOrCreateCustomer (created t) identifier (name b)
                   (Js.or (email b) None) (Js.or (phone b) None);
      wallet ← getOrCreateWallet (c_id customer);
      mret (SignedUp (c_id customer) (c_name customer) (c_email customer)
              (c_phone customer) (Js.or0 (stamps wallet)))
  end.

Definition signup (t : Readings) (b : SignupBody) : Store → Response * Store :=
  try_catch (signup_try t b) (λ _, Error 500 "Signup failed").

(** The rest of the stamp route once customer and wallet are at hand: the
    block under [// Cooldown check] and the one under
    [// Normal award / redemption]. *)
Definition award (t : Readings) (customer : Customer) (wallet : Wallet) : M Response :=
  let last := match last_stamped_at wallet with
              | Some iso => iso
              | None => 0
              end in
  let diff := now t - last in
  if diff <? COOLDOWN_MS
  then
    mret (Cooldown (c_id customer) (Js.or0 (stamps wallet))
            (Js.round_div COOLDOWN_MS 60000)
            (Js.ceil_div (COOLDOWN_MS - diff) 1000))
  else
    let stamps0 := Js.or0 (stamps wallet) in
    if stamps0 <? 10
    then
      let stamps1 := stamps0 + 1 in
      let rewardMessage := if stamps1 =? 10 then Some rewardText else None in
      updateWallet (c_id customer) stamps1 (last_redeemed_at wallet)
        (Some (stampedAt t)) ;;
      mret (Stamped (c_id customer) stamps1 false rewardMessage)
    else
      updateWallet (c_id customer) 0 (Some (redeemedAt t)) (Some (stampedAt t)) ;;
      mret (Stamped (c_id customer) 0 true None).

Definition stamps_add_try (env : Env) (t : Readings) (b : StampBody) : M Response :=
  valid ← call (isValidStaticToken env (token b));
  if negb valid
  then mret (Error 401 "Unauthorized: invalid token")
  else
    match present (identifier b) with
    | None => mret (Error 400 "Missing identifier (email or phone)")
    | Some identifier =>
        customer ← getOrCreateCustomer (created t) identifier None
                     (if Js.includes identifier "@" then Some identifier else None)
                     (if Js.includes identifier "@" then None else Some identifier);
        wallet ← getOrCreateWallet (c_id customer);
        award t customer wallet
    end.

Definition stamps_add (env : Env) (t : Readings) (b : StampBody)
  : Store → Response * Store :=
  try_catch (stamps_add_try env t b) (λ _, Error 500 "Stamp add failed").

(** ** The public API as a transition system *)

Inductive Request : Type :=
| PostSignup (t : Readings) (b : SignupBody)
| PostStampsAdd (t : Readings) (b : StampBody).

Definition handle (env : Env) (r : Request) : Store → Response * Store :=
  match r with
  | PostSignup t b => signup t b
  | PostStampsAdd t b => stamps_add env t b
  end.

(** Requests served one after the other: the replies, in order, and the
    store they leave. *)
Fixpoint serve (env : Env) (rs : list Request) (s : Store) : list Response * Store :=
  match rs with
  | [] => ([], s)
  | r :: rs =>
      let '(reply, s') := handle env r s in
      let '(replies, s'') := serve env rs s' in
      (reply :: replies, s'')
  end.

(** The [k]-th request of a customer who scans the code again and again:
    [ts k] are the clock readings of that request. *)
Definition scan_at (tok : Js.Val) (who : string) (ts : nat → Readings) (k : nat) : Request :=
  PostStampsAdd (ts k) {| identifier := Some who; token := tok |}.

(** ** A scenario to run *)

Module Scenario.

Definition env : Env := {| env_QR_SECRET := None |}.

(** 8 November 2025, 12:00:00 UTC, in milliseconds. *)
Definition t0 : Z := 1762603200000.

(** The readings of the [k]-th request when requests are [gap] ms apart
    and the clock does not move within a request. *)
Definition at_ (gap : Z) (k : nat) : Readings :=
  let t := t0 + gap * Z.of_nat k in
  {| created := t; now := t; redeemedAt := t; stampedAt := t |}.

Definition scan (who : string) (gap : Z) (k : nat) : Request :=
  PostStampsAdd (at_ gap k) {| identifier := Some who; token := Js.Str "PASTA123" |}.

Definition join (who : string) (k : nat) : Request :=
  PostSignup (at_ 0 k) {| name := None; email := Some who; phone := None |}.

(** Signup, then [n] scans, three minutes apart. *)
Definition visits (n : nat) : list Request :=
  join "a@x.com" 0 :: map (scan "a@x.com" 180000) (seq 1 n).

(** The store after these visits, and the rows it holds for [n >= 1]. *)
Definition after (n : nat) : Store := snd (serve env (visits n) fresh).

Definition customer : Customer :=
  {| c_id := "a@x.com"; c_name := None; c_email := Some "a@x.com"%string;
     c_phone := None; c_created_at := Some t0 |}.

Definition wallet (n : nat) : Wallet :=
  {| stamps := Some (Z.of_nat n); last_redeemed_at := None;
     last_stamped_at := Some (t0 + 180000 * Z.of_nat n) |}.

Definition body : StampBody :=
  {| identifier := Some "a@x.com"%string; token := Js.Str "PASTA123" |}.

(** A customer who signed up with an email and a phone, and a second
    signup that brings a new email with the same phone. *)
Definition with_phone : Store :=
  snd (signup (at_ 0 0)
         {| name := None; email := Some "a@x.com"%string;
            phone := Some "0401234567"%string |} fresh).

Definition same_phone : SignupBody :=
  {| name := None; email := Some "b@x.com"%string; phone := Some "0401234567"%string |}.

(** Readings half a minute after the [k]-th visit. *)
Definition soon_after (k : nat) : Readings :=
  let t := t0 + 180000 * Z.of_nat k + 30000 in
  {| created := t; now := t; redeemedAt := t; stampedAt := t |}.

End Scenario.

(** ** Notions the statements below are written with *)

(** The store after the statements [qs] (newest first) were issued and
    changed no row. *)
Definition logged (qs : list Stmt) (s : Store) : Store :=
  {| customers := customers s; wallets := wallets s; journal := qs ++ journal s |}.

(** The store after [qs] were issued and left [wallets] as [ws]. *)
Definition written (qs : list Stmt) (ws : gmap string Wallet) (s : Store) : Store :=
  {| customers := customers s; wallets := ws; journal := qs ++ journal s |}.

(** The cooldown guard in the words of the specification: a stamp is allowed
    when the wallet was never stamped, or was last stamped at least
    [COOLDOWN_MS] ago. *)
Definition allowed (t : Readings) (w : Wallet) : Prop :=
  match last_stamped_at w with
  | None => True
  | Some l => COOLDOWN_MS ≤ now t - l
  end.

(** The time since the last stamp as the route computes it: [now - last],
    with [last = 0] for a wallet never stamped. *)
Definition elapsed (t : Readings) (w : Wallet) : Z :=
  now t - match last_stamped_at w with
          | Some iso => iso
          | None => 0
          end.

#[export] Instance allowed_dec (t : Readings) (w : Wallet) : Decision (allowed t w).
Proof. unfold allowed. destruct (last_stamped_at w); apply _. Defined.

(** The wallet rows after a stamp was written. *)
Definition accrued (t : Readings) (w : Wallet) : Wallet :=
  {| stamps := Some (Js.or0 (stamps w) + 1);
     last_redeemed_at := last_redeemed_at w;
     last_stamped_at := Some (stampedAt t) |}.

Definition redeemed (t : Readings) : Wallet :=
  {| stamps := Some 0;
     last_redeemed_at := Some (redeemedAt t);
     last_stamped_at := Some (stampedAt t) |}.

(** The row the stamp route inserts for an identifier it does not know. *)
Definition scanned_customer (t : Readings) (i : string) : Customer :=
  {| c_id := i; c_name := None;
     c_email := if Js.includes i "@" then Some i else None;
     c_phone := if Js.includes i "@" then None else Some i;
     c_created_at := Some (created t) |}.

(** The three ways out of the award block, as a relation between the store
    it starts in and the reply and store it ends with. *)
Inductive awarded (t : Readings) (c : Customer) (w : Wallet) (s : Store)
  : Response → Store → Prop :=
| awarded_cooldown :
    elapsed t w < COOLDOWN_MS →
    awarded t c w s
      (Cooldown (c_id c) (Js.or0 (stamps w)) 2
         (Js.ceil_div (COOLDOWN_MS - elapsed t w) 1000))
      s
| awarded_accrue :
    COOLDOWN_MS ≤ elapsed t w →
    Js.or0 (stamps w) < 10 →
    awarded t c w s
      (Stamped (c_id c) (Js.or0 (stamps w) + 1) false
         (if Js.or0 (stamps w) + 1 =? 10 then Some rewardText else None))
      (written [UpdateWallet (c_id c) (Js.or0 (stamps w) + 1) (last_redeemed_at w)
                  (Some (stampedAt t))]
         (<[c_id c := accrued t w]> (wallets s)) s)
| awarded_redeem :
    COOLDOWN_MS ≤ elapsed t w →
    10 ≤ Js.or0 (stamps w) →
    awarded t c w s
      (Stamped (c_id c) 0 true None)
      (written [UpdateWallet (c_id c) 0 (Some (redeemedAt t)) (Some (stampedAt t))]
         (<[c_id c := redeemed t]> (wallets s)) s).

(** What the two lookups of a route, with the inserts they may trigger,
    establish: from [s] they lead to [s1], where the customer [c] is the one
    found under [i] and [w] is its wallet row; [customers] gained at most the
    row [new], [wallets] at most an empty wallet for [c], and no wallet was
    updated. *)
Record resolved (s : Store) (i : string) (new : Customer) (c : Customer) (w : Wallet)
    (s1 : Store) : Prop := {
  res_found : find_customer i (customers s1) = Some c;
  res_wallet : wallets s1 !! c_id c = Some w;
  res_customers :
    customers s1 = customers s
    ∨ (find_customer i (customers s) = None
       ∧ customers s1 = customers s ++ [new]);
  res_wallets :
    wallets s1 = wallets s
    ∨ (wallets s !! c_id c = None ∧ w = new_wallet
       ∧ wallets s1 = <[c_id c := new_wallet]> (wallets s));
  res_updates : List.filter is_update (journal s1) = List.filter is_update (journal s)
}.

(** Is the reply the one of a stamp that was written? *)
Definition is_stamped (r : Response) : bool :=
  match r with
  | Stamped _ _ _ _ => true
  | _ => false
  end.

(** How many wallet updates the journal holds. *)
Definition updates (s : Store) : nat := length (List.filter is_update (journal s)).

(** How many statements of the journal change a table. *)
Definition writes (s : Store) : nat := length (List.filter is_write (journal s)).

(** A store the public API can produce from the empty one. *)
Definition reachable (env : Env) (s : Store) : Prop :=
  ∃ rs, snd (serve env rs fresh) = s.

(** What the tables of every reachable store satisfy: a customer is found
    under its own id, a wallet belongs to a customer, and a stamp count is a
    number between 0 and [hi]. *)
Record consistent (hi : Z) (cs : list Customer) (ws : gmap string Wallet) : Prop := {
  keyed : ∀ c, c ∈ cs → matches (c_id c) c = true;
  owned : ∀ id w, ws !! id = Some w → ∃ c, c ∈ cs ∧ c_id c = id;
  ranged : ∀ id w, ws !! id = Some w → ∃ n, stamps w = Some n ∧ 0 ≤ n ≤ hi
}.

Definition sound (s : Store) : Prop := consistent 10 (customers s) (wallets s).

(** The bound of the specification's data model: [0 <= stamps < 10] on
    every wallet row. *)
Definition stamps_below_threshold (s : Store) : Prop :=
  ∀ id w, wallets s !! id = Some w → ∃ n, stamps w = Some n ∧ 0 ≤ n < 10.

(** The bound the code keeps: a wallet rests at 10 between the scan that
    earns the reward and the scan that redeems it. *)
Definition stamps_upto_threshold (s : Store) : Prop :=
  ∀ id w, wallets s !! id = Some w → ∃ n, stamps w = Some n ∧ 0 ≤ n ≤ 10.

(** Hoare triples over [M]: from a store satisfying [P], the computation
    ends in a store satisfying [Q] of its value, or throws in one
    satisfying [E]. *)
Definition triple {A : Type} (P : Store → Prop) (m : M A)
    (Q : A → Store → Prop) (E : Store → Prop) : Prop :=
  ∀ s, P s →
    match m s with
    | (Returned a, s') => Q a s'
    | (Thrown _, s') => E s'
    end.

(** ** The first server of the file: stamps without token or cooldown

    The first half of [src/server/index.js] is the server as it was before
    the QR secret and the cooldown: a [stamps] table with one counter per
    customer, and a stamp route that needs a customer who signed up.  Its
    stamp route and the three helpers under it are embedded here, on the
    local SQLite file the server opens when no Turso database is configured;
    its signup binds request fields that may be [undefined] and draws a
    random id, and is left out. *)

Module Legacy.

(** A row of [customers] ([SELECT *]); the two timestamps are seconds. *)
Record CustomerRow : Type := {
  lc_id : string;
  lc_name : option string;
  lc_email : option string;
  lc_phone : option string;
  lc_created_at : Z;
  lc_updated_at : Z
}.

(** A row of [stamps]; [count INTEGER DEFAULT 0] may hold [NULL]. *)
Record StampRow : Type := {
  st_id : Z;
  st_customer_id : string;
  st_count : option Z;
  st_updated_at : Z
}.

(** Both tables in rowid order; neither has an index besides its key, so
    a [SELECT] scans it from the oldest row. *)
Record Db : Type := {
  l_customers : list CustomerRow;
  l_stamps : list StampRow
}.

(** What a helper gives: its value, or the message of the error it throws. *)
Inductive Result (A : Type) : Type :=
| Done (a : A)
| Raised (message : string).
Arguments Done {A} a.
Arguments Raised {A} message.

(** [Number(row.count)]: [Number(null)] is 0. *)
Definition Number (n : option Z) : Z :=
  match n with
  | Some n => n
  | None => 0
  end.

Definition owned_by (customer_id : string) (r : StampRow) : bool :=
  String.eqb (st_customer_id r) customer_id.

(** [getStamps]: [db.get] returns the first row, or [undefined]. *)
Definition getStamps (customer_id : string) (db : Db) : Z :=
  match List.find (owned_by customer_id) (l_stamps db) with
  | Some row => Number (st_count row)
  | None => 0
  end.

(** [setStamps].  The text of its [UPDATE] spells [strftime("%s","now")]
    with double quotes.  The SQLite that better-sqlite3 carries is built
    without double-quoted string literals: it reads the quoted [%s] as the
    name of a column, [stamps] has none of that name, and [prepare] throws
    before a parameter is bound or a row is touched.  [refusal] is the
    message of that error. *)
Definition setStamps (refusal : string) (customer_id : string) (count : Z) (db : Db)
  : Result Db :=
  Raised refusal.

(** [addStamp]: the result object as the pair [(redeemed, stamps)]. *)
Definition addStamp (refusal : string) (customer_id : string) (db : Db)
  : Result ((bool * Z) * Db) :=
  let current := getStamps customer_id db in
  let next := current + 1 in
  if 10 <=? next
  then match setStamps refusal customer_id 0 db with
       | Done db' => Done ((true, 0), db')
       | Raised message => Raised message
       end
  else match setStamps refusal customer_id next db with
       | Done db' => Done ((false, next), db')
       | Raised message => Raised message
       end.

Inductive Reply : Type :=
| Failed (status : Z) (error : string)
| Added (redeemed : bool) (stamps : Z) (customerId : string).

(** [WHERE email=? OR phone=?] with the identifier bound twice. *)
Definition found_by (identifier : string) (c : CustomerRow) : bool :=
  bool_decide (lc_email c = Some identifier) || bool_decide (lc_phone c = Some identifier).

(** [app.post('/api/stamps/add')]; its [catch] answers 500 with the message
    of the error. *)
Definition stamps_add (refusal : string) (identifier : option string) (db : Db)
  : Reply * Db :=
  match present identifier with
  | None => (Failed 400 "identifier required", db)
  | Some identifier =>
      match List.find (found_by identifier) (l_customers db) with
      | None => (Failed 404 "customer not found", db)
      | Some customer =>
          match addStamp refusal (lc_id customer) db with
          | Done ((redeemed, stamps), db') => (Added redeemed stamps (lc_id customer), db')
          | Raised message => (Failed 500 message, db)
          end
      end
  end.

(** [n] scans of one identifier, one after the other. *)
Fixpoint scans (refusal : string) (identifier : option string) (n : nat) (db : Db)
  : list Reply * Db :=
  match n with
  | O => ([], db)
  | S n =>
      let '(reply, db') := stamps_add refusal identifier db in
      let '(replies, db'') := scans refusal identifier n db' in
      (reply :: replies, db'')
  end.

(** A database to run: one customer, signed up with an email, one card. *)
Definition demo : Db :=
  {| l_customers :=
       [{| lc_id := "K7Q2M9XA"; lc_name := Some "Anna"%string;
           lc_email := Some "a@x.com"%string; lc_phone := None;
           lc_created_at := 1762603200; lc_updated_at := 1762603200 |}];
     l_stamps :=
       [{| st_id := 1; st_customer_id := "K7Q2M9XA"; st_count := Some 0;
           st_updated_at := 1762603200 |}] |}.

(** A message to run with, as recent versions of SQLite word it; the
    column name comes in double quotes (character 34). *)
Definition no_such_column : string :=
  let quote := String (Ascii.ascii_of_nat 34) EmptyString in
  ("no such column: " ++ quote ++ "%s" ++ quote
   ++ " - should this be a string literal in single-quotes?")%string.

End Legacy.

(** ** The same route in the earlier draft of the server

    [src/unnamed/part_000] is the first server before its database layer was
    made to serve two backends, on better-sqlite3 alone; its [addStamp]
    returns early on the tenth stamp. *)

Module Draft.

(** [let { count } = db.prepare(...).get(customer_id) || { count: 0 }; count++;]
    then the early [return] on 10, before the [UPDATE], whose text is the
    one of [Legacy.setStamps]. *)
Definition addStamp (refusal : string) (customer_id : string) (db : Legacy.Db)
  : Legacy.Result ((bool * Z) * Legacy.Db) :=
  let count :=
    match List.find (Legacy.owned_by customer_id) (Legacy.l_stamps db) with
    | Some row => Legacy.Number (Legacy.st_count row)
    | None => 0
    end + 1 in
  if 10 <=? count
  then Legacy.Done ((true, 0), db)
  else match Legacy.setStamps refusal customer_id count db with
       | Legacy.Done db' => Legacy.Done ((false, count), db')
       | Legacy.Raised message => Legacy.Raised message
       end.

(** [app.post('/api/stamps/add')] of the draft. *)
Definition stamps_add (refusal : string) (identifier : option string) (db : Legacy.Db)
  : Legacy.Reply * Legacy.Db :=
  match present identifier with
  | None => (Legacy.Failed 400 "identifier required", db)
  | Some identifier =>
      match List.find (Legacy.found_by identifier) (Legacy.l_customers db) with
      | None => (Legacy.Failed 404 "customer not found", db)
      | Some customer =>
          match addStamp refusal (Legacy.lc_id customer) db with
          | Legacy.Done ((redeemed, stamps), db') =>
              (Legacy.Added redeemed stamps (Legacy.lc_id customer), db')
          | Legacy.Raised message => (Legacy.Failed 500 message, db)
          end
      end
  end.

(** The customer of [Legacy.demo] with nine stamps on the card. *)
Definition nine : Legacy.Db :=
  {| Legacy.l_customers := Legacy.l_customers Legacy.demo;
     Legacy.l_stamps :=
       [{| Legacy.st_id := 1; Legacy.st_customer_id := "K7Q2M9XA";
           Legacy.st_count := Some 9; Legacy.st_updated_at := 1762603200 |}] |}.

End Draft.

(** ** Device tokens for push *)

Module Push.

(** A row of [device_tokens], without its autoincrement id, which no
    statement of the code reads. *)
Record DeviceToken : Type := {
  d_identifier : string;
  d_token : string;
  d_platform : option string;
  d_created_at : Z;
  d_updated_at : Z
}.

Definition has_token (token : string) (r : DeviceToken) : bool :=
  String.eqb (d_token r) token.

(** [INSERT ... ON CONFLICT(token) DO UPDATE SET identifier, platform,
    updated_at]; [nowS] is the reading of [strftime('%s','now')]. *)
Definition upsert (nowS : Z) (identifier token : string) (platform : option string)
    (rows : list DeviceToken) : list DeviceToken :=
  if existsb (has_token token) rows
  then map (λ r, if has_token token r
                 then {| d_identifier := identifier; d_token := d_token r;
                         d_platform := platform; d_created_at := d_created_at r;
                         d_updated_at := nowS |}
                 else r) rows
  else rows ++ [{| d_identifier := identifier; d_token := token; d_platform := platform;
                   d_created_at := nowS; d_updated_at := nowS |}].

(** [const { identifier, token, platform } = req.body || {}]. *)
Record RegisterBody : Type := {
  r_identifier : option string;
  r_token : option string;
  r_platform : option string
}.

Inductive Reply : Type :=
| Failed (status : Z) (error : string)
| Registered
| Sent (sent failed : Z).

(** [app.post('/api/push/register')]. *)
Definition register (nowS : Z) (b : RegisterBody) (rows : list DeviceToken)
  : Reply * list DeviceToken :=
  match present (r_identifier b), present (r_token b) with
  | Some identifier, Some token =>
      (Registered, upsert nowS identifier token (Js.or (r_platform b) None) rows)
  | _, _ => (Failed 400 "identifier and token required", rows)
  end.

(** [SELECT token FROM device_tokens WHERE identifier=?], mapped to the
    tokens. *)
Definition tokens_for (identifier : string) (rows : list DeviceToken) : list string :=
  map d_token (List.filter (λ r, String.eqb (d_identifier r) identifier) rows).

(** [const { identifier, title, body } = req.body || {}]. *)
Record TestBody : Type := {
  t_identifier : option string;
  t_title : option string;
  t_body : option string
}.

Record Notification : Type := {
  n_title : string;
  n_body : string
}.

Definition or_default (s : option string) (d : string) : string :=
  match Js.or s (Some d) with
  | Some x => x
  | None => d
  end.

(** [app.post('/api/push/test')].  [configured] is [admin.apps.length] read
    as a condition; [sendMulticast] stands for Firebase: the two counts of
    its response, or [None] when the call throws. *)
Definition test (configured : bool)
    (sendMulticast : Notification → list string → option (Z * Z))
    (b : TestBody) (rows : list DeviceToken) : Reply :=
  if negb configured then Failed 503 "push not configured"
  else
    match present (t_identifier b) with
    | None => Failed 400 "identifier required"
    | Some identifier =>
        match tokens_for identifier rows with
        | [] => Failed 404 "no tokens for identifier"
        | tokens =>
            match sendMulticast
                    {| n_title := or_default (t_title b) "PastaPass";
                       n_body := or_default (t_body b) "Test push 🚀" |}
                    tokens with
            | Some (sent, failed) => Sent sent failed
            | None => Failed 500 "failed to send test push"
            end
        end
    end.

End Push.

(** ** Schema bootstrap *)

Module Schema.

(** The catalog: the column names of each table, in order. *)
Abbreviation Catalog := (gmap string (list string)).

(** [CREATE TABLE IF NOT EXISTS name (columns)]. *)
Definition createTableIfNotExists (name : string) (columns : list string) (c : Catalog)
  : Catalog :=
  match c !! name with
  | Some _ => c
  | None => <[name := columns]> c
  end.

(** [ALTER TABLE name ADD COLUMN column]: [None] when SQLite refuses (no
    such table, duplicate column name). *)
Definition addColumn (name column : string) (c : Catalog) : option Catalog :=
  match c !! name with
  | None => None
  | Some columns =>
      if existsb (String.eqb column) columns
      then None
      else Some (<[name := columns ++ [column]]> c)
  end.

(** [try { await dbRun(`ALTER TABLE ...`); } catch {}]. *)
Definition tryAddColumn (name column : string) (c : Catalog) : Catalog :=
  match addColumn name column c with
  | Some c' => c'
  | None => c
  end.

Definition customers_columns : list string :=
  ["id"; "name"; "email"; "phone"; "created_at"]%string.

Definition wallets_columns : list string :=
  ["customer_id"; "stamps"; "last_redeemed_at"; "last_stamped_at"]%string.

(** [initSchema], the same three steps under either backend. *)
Definition initSchema (c : Catalog) : Catalog :=
  tryAddColumn "wallets" "last_stamped_at"
    (createTableIfNotExists "wallets" wallets_columns
       (createTableIfNotExists "customers" customers_columns c)).

End Schema.

(** * Properties *)

(** ** JavaScript helpers *)

Lemma or0_some (n : Z) : Js.or0 (Some n) = n.
Proof. unfold Js.or0. destruct (Z.eqb_spec n 0); congruence. Qed.

Lemma present_truthy (o : option string) (i : string) :
  present o = Some i → o = Some i ∧ i ≠ ""%string.
Proof.
  unfold present, Js.truthy_str. destruct o as [x|]; [|discriminate].
  destruct (String.eqb_spec x ""); simpl; [discriminate|].
  intros [= ->]. done.
Qed.

Lemma present_some (i : string) : i ≠ ""%string → present (Some i) = Some i.
Proof.
  intros Hi. unfold present, Js.truthy_str.
  destruct (String.eqb_spec i ""); [contradiction | reflexivity].
Qed.

Lemma or_null_some (i : string) : i ≠ ""%string → Js.or (Some i) None = Some i.
Proof.
  intros Hi. unfold Js.or, Js.truthy_str.
  destruct (String.eqb_spec i ""); [contradiction | reflexivity].
Qed.

(** [Math.ceil] of a quotient is the least integer at or above it. *)
Lemma ceil_div_spec (a b : Z) :
  0 < b → b * (Js.ceil_div a b - 1) < a ≤ b * Js.ceil_div a b.
Proof.
  intros Hb. unfold Js.ceil_div.
  pose proof (Z.div_mod (- a) b ltac:(lia)) as Hdm.
  pose proof (Z.mod_pos_bound (- a) b Hb) as Hmod.
  lia.
Qed.

Lemma cooldownMinutes_value : Js.round_div COOLDOWN_MS 60000 = 2.
Proof. reflexivity. Qed.

(** A falsy token is never valid, whatever the secret. *)
Lemma falsy_token_invalid (env : Env) (v : Js.Val) :
  Js.truthy v = false → isValidStaticToken env v = Returned false.
Proof. intros H. unfold isValidStaticToken. by rewrite H. Qed.

(** Nor is a token that [String] shows as something else than the secret. *)
Lemma wrong_token_invalid (env : Env) (v : Js.Val) (shown : string) :
  Js.String v = Some shown → shown ≠ QR_SECRET env →
  isValidStaticToken env v = Returned false.
Proof.
  intros Hs Hne. unfold isValidStaticToken. rewrite Hs.
  destruct (Js.truthy v); [|done].
  by destruct (String.eqb_spec shown (QR_SECRET env)).
Qed.

(** The validator accepts exactly the truthy values that [String] shows as
    the secret. *)
Lemma token_valid_iff (env : Env) (v : Js.Val) :
  isValidStaticToken env v = Returned true
  ↔ Js.truthy v = true ∧ Js.String v = Some (QR_SECRET env).
Proof.
  unfold isValidStaticToken. destruct (Js.truthy v); [|split; [done | by intros []]].
  destruct (Js.String v) as [shown|]; [|split; [done | by intros []]].
  destruct (String.eqb_spec shown (QR_SECRET env)) as [->|Hne].
  - done.
  - split; [done|]. intros [_ [= Heq]]. done.
Qed.

(** It throws exactly on the truthy values [String] cannot convert, and then
    a [TypeError]. *)
Lemma token_throws_iff (env : Env) (v : Js.Val) (e : Exn) :
  isValidStaticToken env v = Thrown e
  ↔ Js.truthy v = true ∧ Js.String v = None ∧ e = TypeError.
Proof.
  unfold isValidStaticToken. destruct (Js.truthy v); [|split; [done | by intros []]].
  destruct (Js.String v) as [shown|].
  - split; [done | by intros (_ & ? & _)].
  - split; [by intros [= <-] | by intros (_ & _ & ->)].
Qed.

(** The secret is never the empty string: an empty variable falls back to
    the default. *)
Lemma QR_SECRET_nonempty (env : Env) : QR_SECRET env ≠ ""%string.
Proof.
  unfold QR_SECRET, Js.or, Js.truthy_str. destruct env as [[x|]]; simpl; [|done].
  destruct (String.eqb_spec x ""); simpl; [done | assumption].
Qed.

(** A string token is valid exactly when it is the secret. *)
Lemma string_token_valid (env : Env) (x : string) :
  isValidStaticToken env (Js.Str x) = Returned true ↔ x = QR_SECRET env.
Proof.
  rewrite token_valid_iff. cbn [Js.truthy Js.String]. split.
  - by intros [_ [= ->]].
  - intros ->. split; [|done].
    pose proof (QR_SECRET_nonempty env).
    by destruct (String.eqb_spec (QR_SECRET env) "").
Qed.

(** ** The customer lookup *)

Lemma find_app {A : Type} (f : A → bool) (l1 l2 : list A) :
  List.find f (l1 ++ l2)
  = match List.find f l1 with
    | Some x => Some x
    | None => List.find f l2
    end.
Proof. induction l1 as [|x l1 IH]; simpl; [done|]. by destruct (f x). Qed.

Lemma matches_true (i : string) (c : Customer) :
  matches i c = true ↔ c_email c = Some i ∨ c_phone c = Some i.
Proof.
  unfold matches. rewrite orb_true_iff, !bool_decide_eq_true. done.
Qed.

(** The row the lookup returns is a stored row that matches. *)
Lemma find_elem_of (i : string) (cs : list Customer) (c : Customer) :
  find_customer i cs = Some c → c ∈ cs ∧ matches i c = true.
Proof.
  unfold find_customer, matches.
  destruct (List.find _ cs) as [c0|] eqn:He.
  - intros [= ->]. apply find_some in He as [Hin ->]. split; [by apply list_elem_of_In | done].
  - intros [Hin ->]%find_some. split; [by apply list_elem_of_In | apply orb_true_r].
Qed.

(** It returns nothing exactly when no stored row matches. *)
Lemma find_customer_None (i : string) (cs : list Customer) :
  find_customer i cs = None ↔ ∀ c, c ∈ cs → matches i c = false.
Proof.
  split.
  - unfold find_customer, matches. destruct (List.find _ cs) as [c0|] eqn:He; [done|].
    intros Hp c Hc%list_elem_of_In.
    by rewrite (find_none _ _ He c Hc), (find_none _ _ Hp c Hc).
  - intros Hall. destruct (find_customer i cs) as [c|] eqn:Hf; [|done].
    apply find_elem_of in Hf as [Hc Hm]. by rewrite (Hall c Hc) in Hm.
Qed.

Lemma unknown_unmatched (i : string) (cs : list Customer) (c : Customer) :
  find_customer i cs = None → c ∈ cs → matches i c = false.
Proof. intros Hnone. by apply find_customer_None. Qed.

(** A matching row appended to a table that had none is the one found. *)
Lemma find_snoc_new (i : string) (cs : list Customer) (row : Customer) :
  find_customer i cs = None → matches i row = true →
  find_customer i (cs ++ [row]) = Some row.
Proof.
  unfold find_customer, matches. rewrite !find_app.
  destruct (List.find _ cs) as [c0|]; [done|]. intros -> Hrow. simpl.
  destruct (bool_decide (c_email row = Some i)); [done|]. simpl in Hrow. by rewrite Hrow.
Qed.

(** A row appended with another email does not change what is found. *)
Lemma find_snoc_old (i : string) (cs : list Customer) (row c : Customer) :
  find_customer i cs = Some c → c_email row ≠ Some i →
  find_customer i (cs ++ [row]) = Some c.
Proof.
  unfold find_customer. rewrite !find_app. intros Hf Hrow.
  destruct (List.find _ cs) as [c0|]; [done|]. simpl.
  rewrite bool_decide_eq_false_2 by done. by rewrite Hf.
Qed.

(** A stored customer satisfies the foreign key of its wallet. *)
Lemma customer_referenced (c : Customer) (cs : list Customer) :
  c ∈ cs → existsb (λ c', String.eqb (c_id c') (c_id c)) cs = true.
Proof.
  intros Hc. apply existsb_exists. exists c.
  split; [by apply list_elem_of_In | apply String.eqb_refl].
Qed.

(** ** Running the data helpers *)

Ltac run :=
  unfold mbind, M_bind, mret, M_ret, issue, get_store, set_wallets, set_customers, throw;
  simpl.

Lemma bind_run {A B : Type} (m : M A) (f : A → M B) (s : Store) :
  (m ≫= f) s = match m s with
               | (Returned a, s') => f a s'
               | (Thrown e, s') => (Thrown e, s')
               end.
Proof. reflexivity. Qed.

Lemma getCustomerByIdentifier_run (i : string) (s : Store) :
  getCustomerByIdentifier i s
  = (Returned (find_customer i (customers s)), logged [SelectCustomer i] s).
Proof. reflexivity. Qed.

Lemma createCustomer_run (created : Z) (id : string) (nm em ph : option string)
    (s : Store) :
  let row := {| c_id := id; c_name := nm; c_email := em; c_phone := ph;
                c_created_at := Some created |} in
  createCustomer created id nm em ph s
  = if existsb (collides row) (customers s)
    then (Thrown SqliteConstraint, logged [InsertCustomer row] s)
    else (Returned tt,
          {| customers := customers s ++ [row]; wallets := wallets s;
             journal := InsertCustomer row :: journal s |}).
Proof.
  intros row. unfold createCustomer. run. fold row.
  by destruct (existsb (collides row) (customers s)).
Qed.

Lemma getWallet_run (id : string) (s : Store) :
  getWallet id s = (Returned (wallets s !! id), logged [SelectWallet id] s).
Proof. reflexivity. Qed.

Lemma call_run {A : Type} (o : Outcome A) (s : Store) : call o s = (o, s).
Proof. reflexivity. Qed.

Lemma createWallet_run (c : Customer) (s : Store) :
  c ∈ customers s →
  wallets s !! c_id c = None →
  createWallet (c_id c) s
  = (Returned tt,
     written [InsertWallet (c_id c)] (<[c_id c := new_wallet]> (wallets s)) s).
Proof.
  intros Hc H. unfold createWallet. run. by rewrite H, customer_referenced.
Qed.

Lemma updateWallet_run (id : string) (n : Z) (r l : option Z) (s : Store) :
  is_Some (wallets s !! id) →
  updateWallet id n r l s
  = (Returned tt,
     written [UpdateWallet id n r l]
       (<[id := {| stamps := Some n; last_redeemed_at := r; last_stamped_at := l |}]>
          (wallets s)) s).
Proof.
  intros [w H]. unfold updateWallet. run. by rewrite H.
Qed.

Lemma getOrCreateWallet_found (id : string) (w : Wallet) (s : Store) :
  wallets s !! id = Some w →
  getOrCreateWallet id s = (Returned w, logged [SelectWallet id] s).
Proof.
  intros H. unfold getOrCreateWallet. rewrite bind_run, getWallet_run. by rewrite H.
Qed.

Lemma getOrCreateWallet_missing (c : Customer) (s : Store) :
  c ∈ customers s →
  wallets s !! c_id c = None →
  getOrCreateWallet (c_id c) s
  = (Returned new_wallet,
     written [InsertWallet (c_id c); SelectWallet (c_id c)]
       (<[c_id c := new_wallet]> (wallets s)) s).
Proof.
  intros Hc H. unfold getOrCreateWallet. rewrite bind_run, getWallet_run, H.
  cbv beta iota. rewrite bind_run, createWallet_run by done. reflexivity.
Qed.

(** Found, inserted or refused, the wallet lookup touches no customer row,
    changes no stored wallet row and issues no update. *)
Lemma getOrCreateWallet_frame (id : string) (s : Store) :
  customers (snd (getOrCreateWallet id s)) = customers s
  ∧ (∀ id' w, wallets s !! id' = Some w →
       wallets (snd (getOrCreateWallet id s)) !! id' = Some w)
  ∧ List.filter is_update (journal (snd (getOrCreateWallet id s)))
    = List.filter is_update (journal s).
Proof.
  unfold getOrCreateWallet. rewrite bind_run, getWallet_run.
  destruct (wallets s !! id) as [w|] eqn:Hw; [done|].
  rewrite bind_run. unfold createWallet. run. rewrite Hw.
  destruct (existsb _ (customers s)); simpl; [|done].
  split_and!; [done | | done].
  intros id' w Hw'. rewrite lookup_insert_ne; [done|]. intros ->. congruence.
Qed.

Lemma getOrCreateCustomer_found (created : Z) (i : string) (nm em ph : option string)
    (c : Customer) (s : Store) :
  find_customer i (customers s) = Some c →
  getOrCreateCustomer created i nm em ph s = (Returned c, logged [SelectCustomer i] s).
Proof.
  intros H. unfold getOrCreateCustomer.
  rewrite bind_run, getCustomerByIdentifier_run. by rewrite H.
Qed.

(** The store after a customer row was inserted and looked up again. *)
Lemma getOrCreateCustomer_missing (created : Z) (i : string) (nm em ph : option string)
    (s : Store) :
  let row := {| c_id := i; c_name := nm; c_email := em; c_phone := ph;
                c_created_at := Some created |} in
  let s1 := {| customers := customers s ++ [row]; wallets := wallets s;
               journal := [SelectCustomer i; InsertCustomer row; SelectCustomer i]
                          ++ journal s |} in
  find_customer i (customers s) = None →
  getOrCreateCustomer created i nm em ph s
  = if existsb (collides row) (customers s)
    then (Thrown SqliteConstraint, logged [InsertCustomer row; SelectCustomer i] s)
    else match find_customer i (customers s ++ [row]) with
         | Some c => (Returned c, s1)
         | None => (Thrown TypeError, s1)
         end.
Proof.
  intros row s1 H. unfold getOrCreateCustomer.
  rewrite bind_run, getCustomerByIdentifier_run, H. cbv beta iota.
  rewrite bind_run, createCustomer_run. fold row. cbn [logged customers].
  destruct (existsb (collides row) (customers s)); [reflexivity|].
  rewrite bind_run, getCustomerByIdentifier_run. cbn [customers logged].
  by destruct (find_customer i (customers s ++ [row])).
Qed.

(** ** Rules for triples *)

Section Triples.
Context {A B : Type}.
Implicit Types (P E : Store → Prop) (Q : A → Store → Prop) (R : B → Store → Prop).

Lemma triple_ret P Q E (a : A) :
  (∀ s, P s → Q a s) → triple P (mret a) Q E.
Proof. intros H s Hs. by apply H. Qed.

Lemma triple_throw P Q E (e : Exn) :
  (∀ s, P s → E s) → triple P (throw e) Q E.
Proof. intros H s Hs. by apply H. Qed.

Lemma triple_bind P Q R E (m : M A) (f : A → M B) :
  triple P m Q E → (∀ a, triple (Q a) (f a) R E) → triple P (m ≫= f) R E.
Proof.
  intros Hm Hf s Hs. rewrite bind_run. specialize (Hm s Hs).
  destruct (m s) as [[a|e] s']; [|exact Hm]. by apply Hf.
Qed.

Lemma triple_weaken P P' Q Q' E E' (m : M A) :
  triple P' m Q' E' →
  (∀ s, P s → P' s) → (∀ a s, Q' a s → Q a s) → (∀ s, E' s → E s) →
  triple P m Q E.
Proof.
  intros Hm HP HQ HE s Hs. specialize (Hm s (HP s Hs)).
  destruct (m s) as [[a|e] s']; auto.
Qed.

Lemma triple_any P (m : M A) : triple P m (λ _ _, True) (λ _, True).
Proof. intros s _. by destruct (m s) as [[a|e] s']. Qed.
End Triples.

(** ** What the lookups establish *)

(** Customer resolution from [s]: the customer returned is the one now
    found under the identifier; no wallet row changes; [customers] is as
    before or has the new row at its end. *)
Lemma getOrCreateCustomer_spec (created : Z) (i : string) (nm em ph : option string)
    (s : Store) :
  let row := {| c_id := i; c_name := nm; c_email := em; c_phone := ph;
                c_created_at := Some created |} in
  triple (eq s) (getOrCreateCustomer created i nm em ph)
    (λ c s1,
       find_customer i (customers s1) = Some c
       ∧ wallets s1 = wallets s
       ∧ List.filter is_update (journal s1) = List.filter is_update (journal s)
       ∧ (customers s1 = customers s
          ∨ (find_customer i (customers s) = None
             ∧ customers s1 = customers s ++ [row])))
    (λ s1,
       wallets s1 = wallets s
       ∧ List.filter is_update (journal s1) = List.filter is_update (journal s)
       ∧ (customers s1 = customers s ∨ customers s1 = customers s ++ [row])).
Proof.
  intros row s0 <-.
  destruct (find_customer i (customers s)) as [c|] eqn:Hf.
  - rewrite (getOrCreateCustomer_found _ _ _ _ _ c) by done. simpl. auto.
  - rewrite getOrCreateCustomer_missing by done. fold row.
    destruct (existsb (collides row) (customers s)); [simpl; auto|].
    destruct (find_customer i (customers s ++ [row])) as [c|] eqn:Hf';
      simpl; auto 6.
Qed.

(** Wallet resolution from [s] for a stored customer: it never throws; the
    wallet returned is the row now stored under the id, either the one that
    was there or a new empty one. *)
Lemma getOrCreateWallet_spec (id : string) (s : Store) :
  (∃ c, c ∈ customers s ∧ c_id c = id) →
  triple (eq s) (getOrCreateWallet id)
    (λ w s1,
       wallets s1 !! id = Some w
       ∧ customers s1 = customers s
       ∧ List.filter is_update (journal s1) = List.filter is_update (journal s)
       ∧ (wallets s1 = wallets s
          ∨ (wallets s !! id = None ∧ w = new_wallet
             ∧ wallets s1 = <[id := new_wallet]> (wallets s))))
    (λ _, False).
Proof.
  intros (c & Hc & <-) s0 <-. destruct (wallets s !! c_id c) as [w|] eqn:Hw.
  - rewrite (getOrCreateWallet_found _ w) by done.
    cbn [logged wallets customers journal]. split_and!; auto.
  - rewrite getOrCreateWallet_missing by done.
    cbn [written wallets customers journal]. rewrite lookup_insert_eq.
    split_and!; auto.
Qed.

(** ** The award block *)

Lemma award_cooldown (t : Readings) (c : Customer) (w : Wallet) (s : Store) :
  elapsed t w < COOLDOWN_MS →
  award t c w s
  = (Returned (Cooldown (c_id c) (Js.or0 (stamps w)) 2
                 (Js.ceil_div (COOLDOWN_MS - elapsed t w) 1000)), s).
Proof.
  intros Hlt. unfold award. fold (elapsed t w).
  destruct (Z.ltb_spec (elapsed t w) COOLDOWN_MS); [reflexivity | lia].
Qed.

Lemma award_accrue (t : Readings) (c : Customer) (w : Wallet) (s : Store) :
  COOLDOWN_MS ≤ elapsed t w →
  Js.or0 (stamps w) < 10 →
  is_Some (wallets s !! c_id c) →
  award t c w s
  = (Returned (Stamped (c_id c) (Js.or0 (stamps w) + 1) false
                 (if Js.or0 (stamps w) + 1 =? 10 then Some rewardText else None)),
     written [UpdateWallet (c_id c) (Js.or0 (stamps w) + 1) (last_redeemed_at w)
                (Some (stampedAt t))]
       (<[c_id c := accrued t w]> (wallets s)) s).
Proof.
  intros Hge Hn Hrow. unfold award. fold (elapsed t w).
  destruct (Z.ltb_spec (elapsed t w) COOLDOWN_MS); [lia|].
  destruct (Z.ltb_spec (Js.or0 (stamps w)) 10); [|lia].
  rewrite bind_run, updateWallet_run by exact Hrow. reflexivity.
Qed.

Lemma award_redeem (t : Readings) (c : Customer) (w : Wallet) (s : Store) :
  COOLDOWN_MS ≤ elapsed t w →
  10 ≤ Js.or0 (stamps w) →
  is_Some (wallets s !! c_id c) →
  award t c w s
  = (Returned (Stamped (c_id c) 0 true None),
     written [UpdateWallet (c_id c) 0 (Some (redeemedAt t)) (Some (stampedAt t))]
       (<[c_id c := redeemed t]> (wallets s)) s).
Proof.
  intros Hge Hn Hrow. unfold award. fold (elapsed t w).
  destruct (Z.ltb_spec (elapsed t w) COOLDOWN_MS); [lia|].
  destruct (Z.ltb_spec (Js.or0 (stamps w)) 10); [lia|].
  rewrite bind_run, updateWallet_run by exact Hrow. reflexivity.
Qed.

(** On a wallet that has a row the block always returns, in one of the
    three ways. *)
Lemma award_awarded (t : Readings) (c : Customer) (w : Wallet) (s : Store) :
  is_Some (wallets s !! c_id c) →
  ∃ reply s', award t c w s = (Returned reply, s') ∧ awarded t c w s reply s'.
Proof.
  intros Hrow.
  destruct (Z.lt_ge_cases (elapsed t w) COOLDOWN_MS) as [Hlt|Hge].
  - rewrite award_cooldown by done. eexists _, _. split; [done|]. by constructor.
  - destruct (Z.lt_ge_cases (Js.or0 (stamps w)) 10) as [Hn|Hn].
    + rewrite award_accrue by done. eexists _, _. split; [done|]. by constructor.
    + rewrite award_redeem by done. eexists _, _. split; [done|]. by constructor.
Qed.

(** The guard of the specification against the test of the code: they
    agree once the clock is [COOLDOWN_MS] past the epoch. *)
Lemma allowed_elapsed (t : Readings) (w : Wallet) :
  COOLDOWN_MS ≤ now t → (allowed t w ↔ COOLDOWN_MS ≤ elapsed t w).
Proof.
  intros Hclock. unfold allowed, elapsed.
  destruct (last_stamped_at w); [done|]. split; [lia | done].
Qed.

Lemma elapsed_since (t : Readings) (w : Wallet) (l : Z) :
  last_stamped_at w = Some l → elapsed t w = now t - l.
Proof. intros H. unfold elapsed. by rewrite H. Qed.

(** Every way out of the block answers 200. *)
Lemma awarded_status (t : Readings) (c : Customer) (w : Wallet) (s s' : Store)
    (reply : Response) :
  awarded t c w s reply s' → status reply = 200.
Proof. by intros []. Qed.

(** The block touches no customer row, and at most the wallet of its
    customer. *)
Lemma awarded_customers (t : Readings) (c : Customer) (w : Wallet) (s s' : Store)
    (reply : Response) :
  awarded t c w s reply s' → customers s' = customers s.
Proof. by intros []. Qed.

Lemma awarded_others (t : Readings) (c : Customer) (w : Wallet) (s s' : Store)
    (reply : Response) (id : string) :
  awarded t c w s reply s' → id ≠ c_id c → wallets s' !! id = wallets s !! id.
Proof. intros [] Hid; simpl; by rewrite ?lookup_insert_ne. Qed.

(** ** The two routes, resolved *)

(** The row signup inserts for an identifier it does not know. *)
Lemma signup_row_keyed (b : SignupBody) (i : string) (created : option Z) :
  present (Js.or (email b) (phone b)) = Some i →
  matches i {| c_id := i; c_name := name b; c_email := Js.or (email b) None;
               c_phone := Js.or (phone b) None; c_created_at := created |} = true.
Proof.
  unfold present, Js.or, matches. simpl.
  destruct (Js.truthy_str (email b)) eqn:He.
  - rewrite He. intros [= ->]. by rewrite bool_decide_eq_true_2.
  - destruct (Js.truthy_str (phone b)) eqn:Hph; [|discriminate].
    intros [= ->]. rewrite (bool_decide_eq_true_2 (Some i = Some i)) by done.
    apply orb_true_r.
Qed.

Lemma stamp_row_keyed (t : Readings) (i : string) :
  matches i (scanned_customer t i) = true.
Proof.
  unfold matches, scanned_customer. simpl. destruct (Js.includes i "@").
  - by rewrite bool_decide_eq_true_2.
  - rewrite (bool_decide_eq_true_2 (Some i = Some i)) by done. apply orb_true_r.
Qed.

(** The lookups of a route, run one after the other from [s]: they throw,
    leaving the wallets alone, or resolve a customer and a wallet. *)
Lemma resolution (created : Z) (i : string) (nm em ph : option string) (s : Store) :
  let new := {| c_id := i; c_name := nm; c_email := em; c_phone := ph;
                c_created_at := Some created |} in
  match getOrCreateCustomer created i nm em ph s with
  | (Thrown _, s1) =>
      wallets s1 = wallets s
      ∧ List.filter is_update (journal s1) = List.filter is_update (journal s)
      ∧ (customers s1 = customers s ∨ customers s1 = customers s ++ [new])
  | (Returned c, s1) =>
      ∃ w s2, getOrCreateWallet (c_id c) s1 = (Returned w, s2)
              ∧ resolved s i new c w s2
  end.
Proof.
  intros new.
  pose proof (getOrCreateCustomer_spec created i nm em ph s s eq_refl) as Hc.
  destruct (getOrCreateCustomer created i nm em ph s) as [[c|e] s1]; [|exact Hc].
  destruct Hc as (Hf & Hws & Hup & Hcs).
  pose proof (getOrCreateWallet_spec (c_id c) s1
                (ex_intro _ c (conj (proj1 (find_elem_of _ _ _ Hf)) eq_refl))
                s1 eq_refl) as Hw.
  destruct (getOrCreateWallet (c_id c) s1) as [[w|e] s2]; [|done].
  destruct Hw as (Hrow & Hcs2 & Hup2 & Hws2).
  exists w, s2. split; [done|]. split.
  - by rewrite Hcs2.
  - done.
  - by rewrite Hcs2.
  - by rewrite <- Hws.
  - by rewrite Hup2.
Qed.

(** The stamp route past its two guards. *)
Lemma stamps_add_try_valid (env : Env) (t : Readings) (b : StampBody) (i : string)
    (s : Store) :
  isValidStaticToken env (token b) = Returned true →
  present (identifier b) = Some i →
  stamps_add_try env t b s
  = (customer ← getOrCreateCustomer (created t) i None
                  (if Js.includes i "@" then Some i else None)
                  (if Js.includes i "@" then None else Some i);
     wallet ← getOrCreateWallet (c_id customer);
     award t customer wallet) s.
Proof.
  intros Hv Hp. unfold stamps_add_try. rewrite bind_run, call_run, Hv.
  cbn [negb]. by rewrite Hp.
Qed.

(** The stamp route with a valid token and an identifier: a 500 that left
    the wallets alone, or the award block run on what the lookups resolved. *)
Lemma stamps_add_resolution (env : Env) (t : Readings) (b : StampBody) (s : Store)
    (i : string) :
  isValidStaticToken env (token b) = Returned true →
  present (identifier b) = Some i →
  (∃ s1, stamps_add env t b s = (Error 500 "Stamp add failed", s1)
         ∧ wallets s1 = wallets s
         ∧ List.filter is_update (journal s1) = List.filter is_update (journal s)
         ∧ (customers s1 = customers s
            ∨ customers s1 = customers s ++ [scanned_customer t i]))
  ∨ (∃ c w s1 reply s',
       stamps_add env t b s = (reply, s')
       ∧ resolved s i (scanned_customer t i) c w s1
       ∧ awarded t c w s1 reply s').
Proof.
  intros Hv Hp.
  pose proof (resolution (created t) i None
                (if Js.includes i "@" then Some i else None)
                (if Js.includes i "@" then None else Some i) s) as Hres.
  cbv zeta in Hres. fold (scanned_customer t i) in Hres.
  unfold stamps_add, try_catch. rewrite (stamps_add_try_valid env t b i s Hv Hp).
  rewrite bind_run.
  destruct (getOrCreateCustomer _ _ _ _ _ s) as [[c|e] s1].
  - destruct Hres as (w & s2 & Hw & Hres). right.
    rewrite bind_run, Hw.
    destruct (award_awarded t c w s2) as (reply & s' & Hrun & Haw).
    { rewrite (res_wallet _ _ _ _ _ _ Hres). eauto. }
    exists c, w, s2, reply, s'. by rewrite Hrun.
  - left. exists s1. split; [done|]. exact Hres.
Qed.

(** Signup with an identifier: a 500 that left the wallets alone, or the
    reply built from what the lookups resolved. *)
Lemma signup_resolution (t : Readings) (b : SignupBody) (s : Store) (i : string) :
  present (Js.or (email b) (phone b)) = Some i →
  let new := {| c_id := i; c_name := name b; c_email := Js.or (email b) None;
                c_phone := Js.or (phone b) None; c_created_at := Some (created t) |} in
  (∃ s1, signup t b s = (Error 500 "Signup failed", s1)
         ∧ wallets s1 = wallets s
         ∧ (customers s1 = customers s ∨ customers s1 = customers s ++ [new]))
  ∨ (∃ c w s1,
       signup t b s
       = (SignedUp (c_id c) (c_name c) (c_email c) (c_phone c) (Js.or0 (stamps w)), s1)
       ∧ resolved s i new c w s1).
Proof.
  intros Hp new.
  pose proof (resolution (created t) i (name b) (Js.or (email b) None)
                (Js.or (phone b) None) s) as Hres.
  cbv zeta in Hres. fold new in Hres.
  unfold signup, try_catch, signup_try. rewrite Hp.
  rewrite bind_run.
  destruct (getOrCreateCustomer _ _ _ _ _ s) as [[c|e] s1].
  - destruct Hres as (w & s2 & Hw & Hres). right.
    rewrite bind_run, Hw. by exists c, w, s2.
  - left. exists s1. split; [done|]. destruct Hres as (? & ? & ?). done.
Qed.

(** ** Replies by status *)

(** With a valid token and an identifier the reply is a 200 or the 500 of
    the [catch]. *)
Lemma stamps_add_status_resolved (env : Env) (t : Readings) (b : StampBody) (i : string)
    (s : Store) :
  isValidStaticToken env (token b) = Returned true →
  present (identifier b) = Some i →
  status (fst (stamps_add env t b s)) = 200 ∨ status (fst (stamps_add env t b s)) = 500.
Proof.
  intros Hv Hp.
  destruct (stamps_add_resolution env t b s i Hv Hp)
    as [(s1 & -> & _)|(c & w & s1 & reply & s' & -> & _ & Haw)].
  - by right.
  - left. exact (awarded_status _ _ _ _ _ _ Haw).
Qed.

Lemma stamps_add_unauthorized (env : Env) (t : Readings) (b : StampBody) (s : Store) :
  isValidStaticToken env (token b) = Returned false →
  stamps_add env t b s = (Error 401 "Unauthorized: invalid token", s).
Proof.
  intros Hv. unfold stamps_add, try_catch, stamps_add_try.
  by rewrite bind_run, call_run, Hv.
Qed.

(** When the validator throws, the [catch] of the route answers. *)
Lemma stamps_add_token_throws (env : Env) (t : Readings) (b : StampBody) (s : Store)
    (e : Exn) :
  isValidStaticToken env (token b) = Thrown e →
  stamps_add env t b s = (Error 500 "Stamp add failed", s).
Proof.
  intros Hv. unfold stamps_add, try_catch, stamps_add_try.
  by rewrite bind_run, call_run, Hv.
Qed.

Lemma stamps_add_no_identifier (env : Env) (t : Readings) (b : StampBody) (s : Store) :
  isValidStaticToken env (token b) = Returned true →
  present (identifier b) = None →
  stamps_add env t b s = (Error 400 "Missing identifier (email or phone)", s).
Proof.
  intros Hv Hp. unfold stamps_add, try_catch, stamps_add_try.
  rewrite bind_run, call_run, Hv. cbn [negb]. by rewrite Hp.
Qed.

(** A token the validator does not accept: the route answers 401 or, when
    the validator throws, 500, and the store is the one it started from. *)
Lemma stamps_add_rejected (env : Env) (t : Readings) (b : StampBody) (s : Store) :
  isValidStaticToken env (token b) ≠ Returned true →
  (stamps_add env t b s = (Error 401 "Unauthorized: invalid token", s)
   ∧ isValidStaticToken env (token b) = Returned false)
  ∨ (stamps_add env t b s = (Error 500 "Stamp add failed", s)
     ∧ isValidStaticToken env (token b) = Thrown TypeError).
Proof.
  intros Hv. destruct (isValidStaticToken env (token b)) as [[|]|e] eqn:Heq; [done|..].
  - left. by rewrite stamps_add_unauthorized.
  - right. pose proof (proj1 (token_throws_iff _ _ _) Heq) as (_ & _ & ->).
    by rewrite (stamps_add_token_throws env t b s TypeError).
Qed.

(** The validator accepts, or it does not. *)
Lemma token_accepted_dec (env : Env) (v : Js.Val) :
  {isValidStaticToken env v = Returned true} + {isValidStaticToken env v ≠ Returned true}.
Proof. destruct (isValidStaticToken env v) as [[|]|e]; by (left + right). Qed.

Lemma signup_no_identifier (t : Readings) (b : SignupBody) (s : Store) :
  present (Js.or (email b) (phone b)) = None →
  signup t b s = (Error 400 "Missing email or phone", s).
Proof.
  intros Hp. unfold signup, try_catch, signup_try. by rewrite Hp.
Qed.

(** ** Authorization *)

(** The validator does not accept a token that is falsy, or that [String]
    does not show as the secret. *)
Lemma token_not_accepted (env : Env) (v : Js.Val) :
  Js.truthy v = false ∨ Js.String v ≠ Some (QR_SECRET env) →
  isValidStaticToken env v ≠ Returned true.
Proof. intros Hbad [Ht Hs]%token_valid_iff. destruct Hbad; congruence. Qed.

(** C4, as the code has it.  A stamp request whose token is falsy, or is
    not shown by [String] as the shared secret, changes nothing: the store
    the route leaves is the one it started from, so every wallet keeps its
    [stamps], [last_stamped_at] and [last_redeemed_at], [customers] gains no
    row, and an identifier never seen stays unknown.  When the token is falsy
    or [String] shows it as some other text, the reply is the 401. *)
Theorem wrong_token_changes_nothing (env : Env) (t : Readings) (b : StampBody)
    (s : Store) :
  Js.truthy (token b) = false ∨ Js.String (token b) ≠ Some (QR_SECRET env) →
  snd (stamps_add env t b s) = s
  ∧ (∀ id, wallets (snd (stamps_add env t b s)) !! id = wallets s !! id)
  ∧ customers (snd (stamps_add env t b s)) = customers s
  ∧ (∀ i, find_customer i (customers s) = None →
          find_customer i (customers (snd (stamps_add env t b s))) = None)
  ∧ (Js.truthy (token b) = false ∨ is_Some (Js.String (token b)) →
     stamps_add env t b s = (Error 401 "Unauthorized: invalid token", s)).
Proof.
  intros Hbad.
  destruct (stamps_add_rejected env t b s (token_not_accepted env _ Hbad))
    as [[-> Hv]|[-> Hv]]; cbn [fst snd].
  - split_and!; done.
  - apply token_throws_iff in Hv as (Ht & Hs & _).
    split_and!; try done.
    intros [Hf|[shown Hshown]]; congruence.
Qed.

Lemma wrong_token_changes_nothing_witness :
  (Js.truthy (Js.Str "WRONG") = false
   ∨ Js.String (Js.Str "WRONG") ≠ Some (QR_SECRET Scenario.env))
  ∧ stamps_add Scenario.env (Scenario.at_ 180000 4)
      {| identifier := Some "never@seen.com"%string; token := Js.Str "WRONG" |}
      (Scenario.after 3)
    = (Error 401 "Unauthorized: invalid token", Scenario.after 3).
Proof.
  assert (Js.truthy (Js.Str "WRONG") = false
          ∨ Js.String (Js.Str "WRONG") ≠ Some (QR_SECRET Scenario.env)) as Hbad
    by (right; vm_compute; discriminate).
  split; [exact Hbad|].
  apply (wrong_token_changes_nothing Scenario.env (Scenario.at_ 180000 4)
           {| identifier := Some "never@seen.com"%string; token := Js.Str "WRONG" |}
           (Scenario.after 3) Hbad).
  right. by eexists.
Defined.

(** The claim as the specification words it, for every token that is not
    the secret, fails: the array with the secret as its only item is not the
    secret, [String] shows it as the secret, and the request stamps a
    customer it creates. *)
Lemma token_shown_as_secret_is_accepted :
  ¬ (∀ env t b s,
       token b ≠ Js.Str (QR_SECRET env) →
       status (fst (stamps_add env t b s)) = 401
       ∧ customers (snd (stamps_add env t b s)) = customers s
       ∧ wallets (snd (stamps_add env t b s)) = wallets s).
Proof.
  intros H.
  destruct (H Scenario.env (Scenario.at_ 0 0)
              {| identifier := Some "never@seen.com"%string;
                 token := Js.Arr [Js.Str "PASTA123"] |} fresh) as (_ & Hcs & _).
  - discriminate.
  - vm_compute in Hcs. discriminate Hcs.
Qed.

(** C10, at the input where the code leaves it.  A token that is an object
    with a field [toString] is no valid token, yet the request is not
    answered 401: [String] finds no primitive value for the object and
    throws, the validator throws with it, and the [catch] of the route
    answers 500, whatever the identifier, the clock and the store, which is
    left untouched. *)
Theorem unconvertible_token_is_answered_500 :
  let unconvertible := Js.Obj [("toString"%string, Js.Num "1")] in
  Js.truthy unconvertible = true
  ∧ Js.String unconvertible = None
  ∧ isValidStaticToken Scenario.env unconvertible = Thrown TypeError
  ∧ ∀ t identifier s,
      stamps_add Scenario.env t {| identifier := identifier; token := unconvertible |} s
      = (Error 500 "Stamp add failed", s).
Proof.
  cbv zeta. split_and!; [reflexivity..|].
  intros t identifier s. by apply (stamps_add_token_throws _ _ _ _ TypeError).
Qed.

(** X23.  The token is checked before the identifier and before any
    statement is issued.  A request whose token is falsy (absent included),
    or is shown by [String] as something else than the secret, is answered
    401 whatever its identifier, a missing one included; a request whose
    token [String] cannot convert is answered by the [catch], 500; in both
    cases the store, journal included, is untouched.  A reply with status 400
    is only ever given to a request whose token is valid, a truthy value that
    [String] shows as the secret, and then too without touching the store. *)
Theorem token_checked_first (env : Env) (t : Readings) (b : StampBody) (s : Store) :
  (Js.truthy (token b) = false
   ∨ (∃ shown, Js.String (token b) = Some shown ∧ shown ≠ QR_SECRET env) →
   stamps_add env t b s = (Error 401 "Unauthorized: invalid token", s)
   ∧ journal (snd (stamps_add env t b s)) = journal s)
  ∧ (Js.truthy (token b) = true → Js.String (token b) = None →
     stamps_add env t b s = (Error 500 "Stamp add failed", s)
     ∧ journal (snd (stamps_add env t b s)) = journal s)
  ∧ (status (fst (stamps_add env t b s)) = 400 →
     isValidStaticToken env (token b) = Returned true
     ∧ Js.truthy (token b) = true
     ∧ Js.String (token b) = Some (QR_SECRET env)
     ∧ present (identifier b) = None
     ∧ snd (stamps_add env t b s) = s).
Proof.
  split_and!.
  - intros Hbad.
    assert (isValidStaticToken env (token b) = Returned false) as Hv.
    { destruct Hbad as [Hf|(shown & Hs & Hne)];
        [by apply falsy_token_invalid | by apply (wrong_token_invalid env _ shown)]. }
    rewrite (stamps_add_unauthorized env t b s Hv). done.
  - intros Ht Hs.
    assert (isValidStaticToken env (token b) = Thrown TypeError) as Hv
      by (by apply token_throws_iff).
    rewrite (stamps_add_token_throws env t b s TypeError Hv). done.
  - intros H400.
    destruct (token_accepted_dec env (token b)) as [Hv|Hv].
    + destruct (proj1 (token_valid_iff env (token b)) Hv) as [Ht Hs].
      destruct (present (identifier b)) as [i|] eqn:Hp.
      * destruct (stamps_add_status_resolved env t b i s Hv Hp) as [H|H];
          rewrite H in H400; discriminate.
      * by rewrite (stamps_add_no_identifier env t b s Hv Hp).
    + destruct (stamps_add_rejected env t b s Hv) as [[Hrun _]|[Hrun _]];
        rewrite Hrun in H400; discriminate.
Qed.

Lemma token_checked_first_witness :
  (Js.truthy Js.Undefined = false
   ∧ stamps_add Scenario.env (Scenario.at_ 0 0)
       {| identifier := None; token := Js.Undefined |} fresh
     = (Error 401 "Unauthorized: invalid token", fresh))
  ∧ (status (fst (stamps_add Scenario.env (Scenario.at_ 0 0)
                    {| identifier := None; token := Js.Str "PASTA123" |} fresh)) = 400
     ∧ isValidStaticToken Scenario.env (Js.Str "PASTA123") = Returned true).
Proof.
  split_and!.
  - reflexivity.
  - exact (proj1 (proj1 (token_checked_first Scenario.env (Scenario.at_ 0 0)
                           {| identifier := None; token := Js.Undefined |} fresh)
                    (or_introl eq_refl))).
  - reflexivity.
  - exact (proj1 (proj2 (proj2 (token_checked_first Scenario.env (Scenario.at_ 0 0)
                                  {| identifier := None; token := Js.Str "PASTA123" |} fresh))
                    eq_refl)).
Defined.

(** ** The stamp route, customer on file *)

(** With a valid token and a customer found under the identifier, the route
    is its award block run on the stored wallet. *)
Lemma stamps_add_known (env : Env) (t : Readings) (b : StampBody) (s : Store)
    (i : string) (c : Customer) (w : Wallet) :
  isValidStaticToken env (token b) = Returned true →
  present (identifier b) = Some i →
  find_customer i (customers s) = Some c →
  wallets s !! c_id c = Some w →
  stamps_add env t b s
  = try_catch (award t c w) (λ _, Error 500 "Stamp add failed")
      (logged [SelectWallet (c_id c); SelectCustomer i] s).
Proof.
  intros Hv Hp Hf Hw. unfold stamps_add, try_catch.
  rewrite (stamps_add_try_valid env t b i s Hv Hp).
  rewrite bind_run, (getOrCreateCustomer_found _ _ _ _ _ c) by exact Hf.
  rewrite bind_run, (getOrCreateWallet_found _ w) by exact Hw.
  reflexivity.
Qed.

(** ** The stamp transition *)

(** The route on a customer on file whose cooldown has run out: it journals
    the two lookups and the update, and writes the wallet row. *)
Lemma stamps_add_accrue (env : Env) (t : Readings) (b : StampBody) (s : Store)
    (i : string) (c : Customer) (w : Wallet) :
  isValidStaticToken env (token b) = Returned true →
  present (identifier b) = Some i →
  find_customer i (customers s) = Some c →
  wallets s !! c_id c = Some w →
  COOLDOWN_MS ≤ now t →
  allowed t w →
  Js.or0 (stamps w) < 10 →
  stamps_add env t b s
  = (Stamped (c_id c) (Js.or0 (stamps w) + 1) false
       (if Js.or0 (stamps w) + 1 =? 10 then Some rewardText else None),
     written [UpdateWallet (c_id c) (Js.or0 (stamps w) + 1) (last_redeemed_at w)
                (Some (stampedAt t));
              SelectWallet (c_id c); SelectCustomer i]
       (<[c_id c := accrued t w]> (wallets s)) s).
Proof.
  intros Hv Hp Hf Hw Hclock Hok Hn.
  rewrite (stamps_add_known env t b s i c w Hv Hp Hf Hw). unfold try_catch.
  rewrite award_accrue; [reflexivity | by apply allowed_elapsed | done | simpl; rewrite Hw; eauto].
Qed.

Lemma stamps_add_redeem (env : Env) (t : Readings) (b : StampBody) (s : Store)
    (i : string) (c : Customer) (w : Wallet) :
  isValidStaticToken env (token b) = Returned true →
  present (identifier b) = Some i →
  find_customer i (customers s) = Some c →
  wallets s !! c_id c = Some w →
  COOLDOWN_MS ≤ now t →
  allowed t w →
  10 ≤ Js.or0 (stamps w) →
  stamps_add env t b s
  = (Stamped (c_id c) 0 true None,
     written [UpdateWallet (c_id c) 0 (Some (redeemedAt t)) (Some (stampedAt t));
              SelectWallet (c_id c); SelectCustomer i]
       (<[c_id c := redeemed t]> (wallets s)) s).
Proof.
  intros Hv Hp Hf Hw Hclock Hok Hn.
  rewrite (stamps_add_known env t b s i c w Hv Hp Hf Hw). unfold try_catch.
  rewrite award_redeem; [reflexivity | by apply allowed_elapsed | done | simpl; rewrite Hw; eauto].
Qed.

Lemma stamps_add_cooldown (env : Env) (t : Readings) (b : StampBody) (s : Store)
    (i : string) (c : Customer) (w : Wallet) (l : Z) :
  isValidStaticToken env (token b) = Returned true →
  present (identifier b) = Some i →
  find_customer i (customers s) = Some c →
  wallets s !! c_id c = Some w →
  last_stamped_at w = Some l →
  now t - l < COOLDOWN_MS →
  stamps_add env t b s
  = (Cooldown (c_id c) (Js.or0 (stamps w)) 2
       (Js.ceil_div (COOLDOWN_MS - (now t - l)) 1000),
     logged [SelectWallet (c_id c); SelectCustomer i] s).
Proof.
  intros Hv Hp Hf Hw Hl Hlt.
  rewrite (stamps_add_known env t b s i c w Hv Hp Hf Hw). unfold try_catch.
  rewrite award_cooldown by (by rewrite (elapsed_since t w l Hl)).
  by rewrite (elapsed_since t w l Hl).
Qed.

(** C1.  An authorized stamp request with an identifier, for a customer on
    file whose wallet's cooldown has run out, performs the transition of
    the ledger: below 9 stamps the count goes up by one, [redeemed] is false
    and there is no reward message; at 9 it becomes 10, [redeemed] is false
    and the reply carries the fixed congratulation; at 10 or more it becomes
    0, [redeemed] is true, there is no message, and [last_redeemed_at] is
    the clock reading taken for it.  The clock is assumed to read a time at
    least [COOLDOWN_MS] after the epoch. *)
Theorem stamp_transition (env : Env) (t : Readings) (b : StampBody) (s : Store)
    (i : string) (c : Customer) (w : Wallet) :
  isValidStaticToken env (token b) = Returned true →
  present (identifier b) = Some i →
  find_customer i (customers s) = Some c →
  wallets s !! c_id c = Some w →
  COOLDOWN_MS ≤ now t →
  allowed t w →
  let n := Js.or0 (stamps w) in
  let reply := fst (stamps_add env t b s) in
  let s' := snd (stamps_add env t b s) in
  (n < 9 →
   reply = Stamped (c_id c) (n + 1) false None
   ∧ wallets s' = <[c_id c := {| stamps := Some (n + 1);
                                 last_redeemed_at := last_redeemed_at w;
                                 last_stamped_at := Some (stampedAt t) |}]> (wallets s))
  ∧ (n = 9 →
     reply = Stamped (c_id c) 10 false (Some rewardText)
     ∧ wallets s' = <[c_id c := {| stamps := Some 10;
                                   last_redeemed_at := last_redeemed_at w;
                                   last_stamped_at := Some (stampedAt t) |}]> (wallets s))
  ∧ (10 ≤ n →
     reply = Stamped (c_id c) 0 true None
     ∧ wallets s' = <[c_id c := {| stamps := Some 0;
                                   last_redeemed_at := Some (redeemedAt t);
                                   last_stamped_at := Some (stampedAt t) |}]> (wallets s)).
Proof.
  intros Hv Hp Hf Hw Hclock Hok n reply s'. subst reply s'.
  split; [|split]; intros Hn.
  - rewrite (stamps_add_accrue env t b s i c w) by (done || lia). simpl.
    fold n. destruct (Z.eqb_spec (n + 1) 10); [lia|]. split; reflexivity.
  - rewrite (stamps_add_accrue env t b s i c w) by (done || lia). simpl.
    fold n. rewrite Hn. split; [reflexivity|]. unfold accrued. fold n. by rewrite Hn.
  - by rewrite (stamps_add_redeem env t b s i c w).
Qed.

Lemma stamp_transition_witness :
  (isValidStaticToken Scenario.env (token Scenario.body) = Returned true
   ∧ wallets (Scenario.after 9) !! c_id Scenario.customer = Some (Scenario.wallet 9)
   ∧ allowed (Scenario.at_ 180000 10) (Scenario.wallet 9))
  ∧ fst (stamps_add Scenario.env (Scenario.at_ 180000 10) Scenario.body (Scenario.after 9))
    = Stamped "a@x.com" 10 false (Some rewardText).
Proof.
  assert (isValidStaticToken Scenario.env (token Scenario.body) = Returned true) as Hv
    by reflexivity.
  assert (present (identifier Scenario.body) = Some "a@x.com"%string) as Hp
    by reflexivity.
  assert (find_customer "a@x.com" (customers (Scenario.after 9))
          = Some Scenario.customer) as Hf by (vm_compute; reflexivity).
  assert (wallets (Scenario.after 9) !! c_id Scenario.customer
          = Some (Scenario.wallet 9)) as Hw by (vm_compute; reflexivity).
  assert (COOLDOWN_MS ≤ now (Scenario.at_ 180000 10)) as Hclock
    by (vm_compute; discriminate).
  assert (allowed (Scenario.at_ 180000 10) (Scenario.wallet 9)) as Hok
    by (vm_compute; discriminate).
  split; [exact (conj Hv (conj Hw Hok))|].
  exact (proj1 (proj1 (proj2 (stamp_transition Scenario.env (Scenario.at_ 180000 10)
                                Scenario.body (Scenario.after 9) "a@x.com"
                                Scenario.customer (Scenario.wallet 9)
                                Hv Hp Hf Hw Hclock Hok))
                  eq_refl)).
Defined.

(** C8.  For a customer on file, every branch of the stamp route that
    writes the wallet (fewer than 9 stamps, exactly 9, 10 or more) sets
    [last_stamped_at] to the clock reading taken for it; [last_redeemed_at]
    keeps its stored value on both accrual branches and changes, to its own
    clock reading, on the redemption branch only; the branch that does not
    write (cooldown) leaves the row as it was; and no other wallet and no
    customer row is touched. *)
Theorem timestamps_frame (env : Env) (t : Readings) (b : StampBody) (s : Store)
    (i : string) (c : Customer) (w : Wallet) :
  isValidStaticToken env (token b) = Returned true →
  present (identifier b) = Some i →
  find_customer i (customers s) = Some c →
  wallets s !! c_id c = Some w →
  COOLDOWN_MS ≤ now t →
  let s' := snd (stamps_add env t b s) in
  ∃ w', wallets s' !! c_id c = Some w'
    ∧ (allowed t w → last_stamped_at w' = Some (stampedAt t))
    ∧ (allowed t w → Js.or0 (stamps w) < 10 → last_redeemed_at w' = last_redeemed_at w)
    ∧ (allowed t w → 10 ≤ Js.or0 (stamps w) → last_redeemed_at w' = Some (redeemedAt t))
    ∧ (¬ allowed t w → w' = w)
    ∧ (∀ id, id ≠ c_id c → wallets s' !! id = wallets s !! id)
    ∧ customers s' = customers s.
Proof.
  intros Hv Hp Hf Hw Hclock s'. subst s'.
  destruct (decide (allowed t w)) as [Hok|Hno].
  - destruct (Z.lt_ge_cases (Js.or0 (stamps w)) 10) as [Hn|Hn].
    + rewrite (stamps_add_accrue env t b s i c w) by done. simpl.
      exists (accrued t w). rewrite lookup_insert_eq.
      split_and!; try done; try lia.
      intros id Hid. by rewrite lookup_insert_ne.
    + rewrite (stamps_add_redeem env t b s i c w) by done. simpl.
      exists (redeemed t). rewrite lookup_insert_eq.
      split_and!; try done; try lia.
      intros id Hid. by rewrite lookup_insert_ne.
  - unfold allowed in Hno. destruct (last_stamped_at w) as [l|] eqn:Hl; [|done].
    rewrite (stamps_add_cooldown env t b s i c w l) by (done || lia). simpl.
    exists w. unfold allowed. rewrite Hl. split_and!; done.
Qed.

Lemma timestamps_frame_witness :
  wallets (Scenario.after 10) !! c_id Scenario.customer = Some (Scenario.wallet 10)
  ∧ ∃ w', wallets (snd (stamps_add Scenario.env (Scenario.at_ 180000 11) Scenario.body
                          (Scenario.after 10))) !! c_id Scenario.customer = Some w'.
Proof.
  assert (isValidStaticToken Scenario.env (token Scenario.body) = Returned true) as Hv
    by reflexivity.
  assert (present (identifier Scenario.body) = Some "a@x.com"%string) as Hp
    by reflexivity.
  assert (find_customer "a@x.com" (customers (Scenario.after 10))
          = Some Scenario.customer) as Hf by (vm_compute; reflexivity).
  assert (wallets (Scenario.after 10) !! c_id Scenario.customer
          = Some (Scenario.wallet 10)) as Hw by (vm_compute; reflexivity).
  assert (COOLDOWN_MS ≤ now (Scenario.at_ 180000 11)) as Hclock
    by (vm_compute; discriminate).
  split; [exact Hw|].
  destruct (timestamps_frame Scenario.env (Scenario.at_ 180000 11) Scenario.body
              (Scenario.after 10) "a@x.com" Scenario.customer (Scenario.wallet 10)
              Hv Hp Hf Hw Hclock) as (w' & Hw' & _).
  exists w'. exact Hw'.
Defined.


(** ** The cooldown guard *)

(** What a [Stamped] reply tells about the store the request left: the
    customer of the reply is the one found under the identifier, its wallet
    row holds the stamp count of the reply and the reading taken for
    [last_stamped_at], and the journal gained exactly one update. *)
Lemma stamped_post (env : Env) (t : Readings) (b : StampBody) (s : Store)
    (i id : string) (n : Z) (r : bool) (m : option string) :
  present (identifier b) = Some i →
  fst (stamps_add env t b s) = Stamped id n r m →
  isValidStaticToken env (token b) = Returned true
  ∧ ∃ c w, find_customer i (customers (snd (stamps_add env t b s))) = Some c
    ∧ c_id c = id
    ∧ wallets (snd (stamps_add env t b s)) !! id = Some w
    ∧ stamps w = Some n
    ∧ last_stamped_at w = Some (stampedAt t)
    ∧ updates (snd (stamps_add env t b s)) = S (updates s).
Proof.
  intros Hp Hreply.
  destruct (token_accepted_dec env (token b)) as [Hv|Hv]; cycle 1.
  { destruct (stamps_add_rejected env t b s Hv) as [[Hrun _]|[Hrun _]];
      rewrite Hrun in Hreply; discriminate. }
  split; [done|].
  destruct (stamps_add_resolution env t b s i Hv Hp)
    as [(s1 & Hrun & _)|(c & w & s1 & reply & s' & Hrun & Hres & Haw)];
    rewrite Hrun in Hreply |- *; simpl in Hreply |- *; [discriminate|].
  destruct Hres as [Hf Hw _ _ Hup]. unfold updates.
  destruct Haw; simplify_eq; simpl.
  - exists c, (accrued t w). rewrite lookup_insert_eq, Hup. done.
  - exists c, (redeemed t). rewrite lookup_insert_eq, Hup. done.
Qed.

(** Two stamp requests for one identifier, the second before the cooldown
    of the first has run out: the second is answered [cooldown], reports the
    count the first left, changes no row, and the two together updated the
    ledger once. *)
Lemma back_to_back (env : Env) (t1 t2 : Readings) (b1 b2 : StampBody) (s : Store)
    (i id : string) (n : Z) (r : bool) (m : option string) :
  present (identifier b1) = Some i →
  present (identifier b2) = Some i →
  isValidStaticToken env (token b2) = Returned true →
  fst (stamps_add env t1 b1 s) = Stamped id n r m →
  now t2 - stampedAt t1 < COOLDOWN_MS →
  let s1 := snd (stamps_add env t1 b1 s) in
  let s2 := snd (stamps_add env t2 b2 s1) in
  fst (stamps_add env t2 b2 s1)
  = Cooldown id n 2 (Js.ceil_div (COOLDOWN_MS - (now t2 - stampedAt t1)) 1000)
  ∧ customers s2 = customers s1
  ∧ wallets s2 = wallets s1
  ∧ updates s2 = S (updates s).
Proof.
  intros Hp1 Hp2 Hv2 Hreply Hlt s1 s2. subst s1 s2.
  destruct (stamped_post env t1 b1 s i id n r m Hp1 Hreply)
    as (_ & c & w & Hf & <- & Hw & Hst & Hl & Hup).
  rewrite (stamps_add_cooldown env t2 b2 _ i c w (stampedAt t1)) by done.
  simpl. rewrite Hst, or0_some. split_and!; try done.
Qed.

(** C3.  For a customer on file, with a clock that reads at least
    [COOLDOWN_MS] past the epoch: the stamp is made exactly when the wallet
    was never stamped or was last stamped at least 120 seconds ago;
    otherwise no row of either table changes, no write is issued, the reply
    is a cooldown reply with the stored stamp count, and its [secondsLeft]
    is the least integer at or above (COOLDOWN - elapsed) / 1000; and a
    second request for the identifier within the cooldown of a first one
    that stamped is answered [cooldown], changes no row, and leaves the
    journal with a single update for the two. *)
Theorem cooldown_guard (env : Env) (t : Readings) (b : StampBody) (s : Store)
    (i : string) (c : Customer) (w : Wallet) :
  isValidStaticToken env (token b) = Returned true →
  present (identifier b) = Some i →
  find_customer i (customers s) = Some c →
  wallets s !! c_id c = Some w →
  COOLDOWN_MS ≤ now t →
  let reply := fst (stamps_add env t b s) in
  let s' := snd (stamps_add env t b s) in
  (last_stamped_at w = None ∨ (∃ l, last_stamped_at w = Some l ∧ (now t - l >= 120 * 1000)%Z)
   ↔ ∃ n r m, reply = Stamped (c_id c) n r m)
  ∧ (∀ l, last_stamped_at w = Some l → now t - l < COOLDOWN_MS →
       ∃ secondsLeft,
         reply = Cooldown (c_id c) (Js.or0 (stamps w)) 2 secondsLeft
         ∧ 1000 * (secondsLeft - 1) < COOLDOWN_MS - (now t - l) ≤ 1000 * secondsLeft
         ∧ customers s' = customers s
         ∧ wallets s' = wallets s
         ∧ writes s' = writes s)
  ∧ (∀ t2 b2 n r m,
       reply = Stamped (c_id c) n r m →
       isValidStaticToken env (token b2) = Returned true →
       present (identifier b2) = Some i →
       now t2 - stampedAt t < COOLDOWN_MS →
       ∃ secondsLeft,
         fst (stamps_add env t2 b2 s') = Cooldown (c_id c) n 2 secondsLeft
         ∧ customers (snd (stamps_add env t2 b2 s')) = customers s'
         ∧ wallets (snd (stamps_add env t2 b2 s')) = wallets s'
         ∧ updates (snd (stamps_add env t2 b2 s')) = S (updates s)).
Proof.
  intros Hv Hp Hf Hw Hclock reply s'. subst reply s'. split_and!.
  - split.
    + intros Hok.
      assert (allowed t w) as Hal.
      { unfold allowed. destruct Hok as [->|(l & -> & Hl)]; [done|].
        unfold COOLDOWN_MS. lia. }
      destruct (Z.lt_ge_cases (Js.or0 (stamps w)) 10) as [Hn|Hn].
      * rewrite (stamps_add_accrue env t b s i c w) by done. simpl. eauto.
      * rewrite (stamps_add_redeem env t b s i c w) by done. simpl. eauto.
    + intros (n & r & m & Hreply).
      destruct (last_stamped_at w) as [l|] eqn:Hl; [|by left]. right.
      exists l. split; [done|].
      destruct (Z.lt_ge_cases (now t - l) COOLDOWN_MS) as [Hlt|Hge].
      * rewrite (stamps_add_cooldown env t b s i c w l) in Hreply by done.
        discriminate.
      * unfold COOLDOWN_MS in Hge. lia.
  - intros l Hl Hlt.
    rewrite (stamps_add_cooldown env t b s i c w l) by done. simpl.
    eexists. split; [reflexivity|].
    split; [apply ceil_div_spec; lia | done].
  - intros t2 b2 n r m Hreply Hv2 Hp2 Hlt.
    destruct (back_to_back env t t2 b b2 s i (c_id c) n r m Hp Hp2 Hv2 Hreply Hlt)
      as (H1 & H2 & H3 & H4).
    eauto 6.
Qed.

Lemma cooldown_guard_witness :
  (wallets (Scenario.after 1) !! c_id Scenario.customer = Some (Scenario.wallet 1)
   ∧ now (Scenario.soon_after 1) - (Scenario.t0 + 180000 * 1) < COOLDOWN_MS)
  ∧ ∃ secondsLeft,
      fst (stamps_add Scenario.env (Scenario.soon_after 1) Scenario.body (Scenario.after 1))
      = Cooldown "a@x.com" 1 2 secondsLeft.
Proof.
  assert (isValidStaticToken Scenario.env (token Scenario.body) = Returned true) as Hv
    by reflexivity.
  assert (present (identifier Scenario.body) = Some "a@x.com"%string) as Hp
    by reflexivity.
  assert (find_customer "a@x.com" (customers (Scenario.after 1))
          = Some Scenario.customer) as Hf by (vm_compute; reflexivity).
  assert (wallets (Scenario.after 1) !! c_id Scenario.customer
          = Some (Scenario.wallet 1)) as Hw by (vm_compute; reflexivity).
  assert (COOLDOWN_MS ≤ now (Scenario.soon_after 1)) as Hclock
    by (vm_compute; discriminate).
  assert (now (Scenario.soon_after 1) - (Scenario.t0 + 180000 * 1) < COOLDOWN_MS) as Hlt
    by (vm_compute; reflexivity).
  split; [exact (conj Hw Hlt)|].
  destruct (proj1 (proj2 (cooldown_guard Scenario.env (Scenario.soon_after 1) Scenario.body
                            (Scenario.after 1) "a@x.com" Scenario.customer
                            (Scenario.wallet 1) Hv Hp Hf Hw Hclock))
              (Scenario.t0 + 180000 * 1) eq_refl Hlt) as (secondsLeft & Hreply & _).
  exists secondsLeft. exact Hreply.
Defined.


(** ** Signup *)

(** Signup of a customer on file with a wallet: two lookups, no write. *)
Lemma signup_known (t : Readings) (b : SignupBody) (s : Store)
    (i : string) (c : Customer) (w : Wallet) :
  present (Js.or (email b) (phone b)) = Some i →
  find_customer i (customers s) = Some c →
  wallets s !! c_id c = Some w →
  signup t b s
  = (SignedUp (c_id c) (c_name c) (c_email c) (c_phone c) (Js.or0 (stamps w)),
     logged [SelectWallet (c_id c); SelectCustomer i] s).
Proof.
  intros Hp Hf Hw. unfold signup, try_catch, signup_try. rewrite Hp.
  rewrite bind_run, (getOrCreateCustomer_found _ _ _ _ _ c) by exact Hf.
  rewrite bind_run, (getOrCreateWallet_found _ w) by exact Hw.
  reflexivity.
Qed.

(** What a [SignedUp] reply tells: the lookups resolved the customer and
    the wallet the reply was built from. *)
Lemma signed_up_post (t : Readings) (b : SignupBody) (s : Store)
    (id : string) (nm em ph : option string) (k : Z) :
  fst (signup t b s) = SignedUp id nm em ph k →
  ∃ i new c w, present (Js.or (email b) (phone b)) = Some i
    ∧ resolved s i new c w (snd (signup t b s))
    ∧ SignedUp (c_id c) (c_name c) (c_email c) (c_phone c) (Js.or0 (stamps w))
      = SignedUp id nm em ph k.
Proof.
  intros Hreply.
  destruct (present (Js.or (email b) (phone b))) as [i|] eqn:Hp; cycle 1.
  { rewrite (signup_no_identifier t b s Hp) in Hreply. discriminate. }
  destruct (signup_resolution t b s i Hp)
    as [(s1 & Hrun & _)|(c & w & s1 & Hrun & Hres)];
    rewrite Hrun in Hreply |- *; simpl in Hreply |- *; [discriminate|].
  eexists i, _, c, w. split_and!; [done | exact Hres | done].
Qed.

(** Signup leaves every stored wallet row as it is, whatever it answers. *)
Lemma signup_wallets_kept (t : Readings) (b : SignupBody) (s : Store)
    (id : string) (w : Wallet) :
  wallets s !! id = Some w → wallets (snd (signup t b s)) !! id = Some w.
Proof.
  intros Hw. destruct (present (Js.or (email b) (phone b))) as [i|] eqn:Hp; cycle 1.
  { by rewrite signup_no_identifier. }
  destruct (signup_resolution t b s i Hp)
    as [(s1 & -> & Hws & _)|(c & w' & s1 & -> & [_ _ _ Hws _])]; cbn [snd].
  - by rewrite Hws.
  - destruct Hws as [->|(Hnone & _ & ->)]; [done|].
    rewrite lookup_insert_ne; [done|]. intros Heq. rewrite Heq in Hnone. congruence.
Qed.

(** C5.  Signup is idempotent and never resets stamps.  When a signup
    returns a customer, a second signup with the same identifier
    ([email || phone]) returns the same customer id, fields and stamp count,
    issues no write, and leaves every row of both tables as the first left
    them.  Neither of the two changes a wallet row that was stored before
    the first: the count both report for a returning customer is the count
    stored then, still stored after the second; for a customer who had no
    wallet row it is the 0 of the wallet the first signup inserts; and
    neither issues a wallet update. *)
Theorem signup_idempotent (t1 t2 : Readings) (b1 b2 : SignupBody) (s : Store)
    (id : string) (nm em ph : option string) (k : Z) :
  Js.or (email b1) (phone b1) = Js.or (email b2) (phone b2) →
  fst (signup t1 b1 s) = SignedUp id nm em ph k →
  let s1 := snd (signup t1 b1 s) in
  let s2 := snd (signup t2 b2 s1) in
  fst (signup t2 b2 s1) = SignedUp id nm em ph k
  ∧ customers s2 = customers s1
  ∧ wallets s2 = wallets s1
  ∧ writes s2 = writes s1
  ∧ (∀ id' w, wallets s !! id' = Some w →
       wallets s1 !! id' = Some w ∧ wallets s2 !! id' = Some w)
  ∧ (∀ w, wallets s !! id = Some w → k = Js.or0 (stamps w))
  ∧ (wallets s !! id = None → k = 0)
  ∧ (∃ w, wallets s2 !! id = Some w ∧ Js.or0 (stamps w) = k)
  ∧ updates s2 = updates s.
Proof.
  intros Hsame Hreply s1 s2. subst s1 s2.
  destruct (signed_up_post t1 b1 s id nm em ph k Hreply)
    as (i & new & c & w & Hp & [Hf Hw _ Hws Hup] & Heq).
  injection Heq as <- <- <- <- <-.
  rewrite Hsame in Hp.
  rewrite (signup_known t2 b2 _ i c w Hp Hf Hw). cbn [fst snd logged customers wallets].
  split_and!; try done.
  - intros id' w' Hw'. split; by apply signup_wallets_kept.
  - intros w' Hw'. apply (signup_wallets_kept t1 b1) in Hw'. congruence.
  - intros Hnone. destruct Hws as [Hws|(_ & -> & _)]; [|done].
    rewrite Hws in Hw. congruence.
  - by exists w.
  - unfold updates. cbn [journal logged app List.filter is_update]. by rewrite Hup.
Qed.

Lemma signup_idempotent_witness :
  wallets (Scenario.after 3) !! "a@x.com"%string = Some (Scenario.wallet 3)
  ∧ fst (signup (Scenario.at_ 180000 4)
           {| name := None; email := Some "a@x.com"%string; phone := None |}
           (Scenario.after 3))
    = SignedUp "a@x.com" None (Some "a@x.com"%string) None 3
  ∧ fst (signup (Scenario.at_ 180000 5)
           {| name := Some "Anna"%string; email := Some "a@x.com"%string; phone := None |}
           (snd (signup (Scenario.at_ 180000 4)
                   {| name := None; email := Some "a@x.com"%string; phone := None |}
                   (Scenario.after 3))))
    = SignedUp "a@x.com" None (Some "a@x.com"%string) None 3
  ∧ wallets (snd (signup (Scenario.at_ 180000 5)
                    {| name := Some "Anna"%string; email := Some "a@x.com"%string;
                       phone := None |}
                    (snd (signup (Scenario.at_ 180000 4)
                            {| name := None; email := Some "a@x.com"%string;
                               phone := None |}
                            (Scenario.after 3))))) !! "a@x.com"%string
    = Some (Scenario.wallet 3).
Proof.
  assert (wallets (Scenario.after 3) !! "a@x.com"%string = Some (Scenario.wallet 3))
    as Hw by (vm_compute; reflexivity).
  assert (fst (signup (Scenario.at_ 180000 4)
                 {| name := None; email := Some "a@x.com"%string; phone := None |}
                 (Scenario.after 3))
          = SignedUp "a@x.com" None (Some "a@x.com"%string) None 3) as Hfirst
    by (vm_compute; reflexivity).
  destruct (signup_idempotent (Scenario.at_ 180000 4) (Scenario.at_ 180000 5)
              {| name := None; email := Some "a@x.com"%string; phone := None |}
              {| name := Some "Anna"%string; email := Some "a@x.com"%string;
                 phone := None |}
              (Scenario.after 3) "a@x.com" None (Some "a@x.com"%string) None 3
              eq_refl Hfirst) as (Hsecond & _ & _ & _ & Hkept & _).
  split_and!; [exact Hw | exact Hfirst | exact Hsecond |].
  exact (proj2 (Hkept "a@x.com"%string (Scenario.wallet 3) Hw)).
Defined.


(** ** The invariant of reachable stores *)

Lemma consistent_empty (hi : Z) : consistent hi [] ∅.
Proof.
  split.
  - intros c Hc. by apply elem_of_nil in Hc.
  - intros id w Hw. by rewrite lookup_empty in Hw.
  - intros id w Hw. by rewrite lookup_empty in Hw.
Qed.

Lemma consistent_snoc (hi : Z) (cs : list Customer) (ws : gmap string Wallet)
    (row : Customer) :
  consistent hi cs ws → matches (c_id row) row = true → consistent hi (cs ++ [row]) ws.
Proof.
  intros [Hk Ho Hr] Hrow. split.
  - intros c [Hc|Hc%list_elem_of_singleton]%elem_of_app; [by apply Hk | by subst].
  - intros id w Hw. destruct (Ho id w Hw) as (c & Hc & Hid).
    exists c. split; [apply elem_of_app; by left | done].
  - done.
Qed.

Lemma consistent_insert (hi : Z) (cs : list Customer) (ws : gmap string Wallet)
    (c : Customer) (n : Z) (r l : option Z) :
  consistent hi cs ws → c ∈ cs → 0 ≤ n ≤ hi →
  consistent hi cs
    (<[c_id c := {| stamps := Some n; last_redeemed_at := r; last_stamped_at := l |}]> ws).
Proof.
  intros [Hk Ho Hr] Hc Hn. split; [done|..].
  - intros id w. destruct (decide (c_id c = id)) as [<-|Hne].
    + intros _. by exists c.
    + rewrite lookup_insert_ne by done. apply Ho.
  - intros id w. destruct (decide (c_id c = id)) as [<-|Hne].
    + rewrite lookup_insert_eq. intros [= <-]. by exists n.
    + rewrite lookup_insert_ne by done. apply Hr.
Qed.

(** The count read off a stored wallet is within the bounds of the row. *)
Lemma ranged_or0 (hi : Z) (cs : list Customer) (ws : gmap string Wallet)
    (id : string) (w : Wallet) :
  consistent hi cs ws → ws !! id = Some w → 0 ≤ Js.or0 (stamps w) ≤ hi.
Proof.
  intros [_ _ Hr] Hw. destruct (Hr id w Hw) as (n & Hn & Hb).
  by rewrite Hn, or0_some.
Qed.

(** A failed insert or a new row keeps the tables consistent. *)
Lemma maybe_snoc_sound (s s1 : Store) (new : Customer) :
  sound s → matches (c_id new) new = true →
  wallets s1 = wallets s →
  customers s1 = customers s ∨ customers s1 = customers s ++ [new] →
  sound s1.
Proof.
  unfold sound. intros Hs Hnew -> [->| ->]; [done | by apply consistent_snoc].
Qed.

Lemma resolved_sound (s s1 : Store) (i : string) (new c : Customer) (w : Wallet) :
  sound s → matches (c_id new) new = true →
  resolved s i new c w s1 →
  sound s1 ∧ c ∈ customers s1.
Proof.
  unfold sound. intros Hs Hnew [Hf Hw Hcs Hws _].
  apply find_elem_of in Hf as [Hc _]. split; [|done].
  assert (consistent 10 (customers s1) (wallets s)) as Hs1.
  { destruct Hcs as [->|[_ ->]]; [done | by apply consistent_snoc]. }
  destruct Hws as [->|(_ & _ & ->)]; [done|].
  by apply (consistent_insert 10 _ _ c 0 None None).
Qed.

Lemma awarded_sound (t : Readings) (c : Customer) (w : Wallet) (s s' : Store)
    (reply : Response) :
  sound s → c ∈ customers s → wallets s !! c_id c = Some w →
  awarded t c w s reply s' → sound s'.
Proof.
  unfold sound. intros Hs Hc Hw Haw.
  pose proof (ranged_or0 10 _ _ _ _ Hs Hw) as Hn.
  destruct Haw; cbn [written wallets customers]; unfold accrued, redeemed.
  - done.
  - apply consistent_insert; [done..|lia].
  - apply consistent_insert; [done..|lia].
Qed.

Lemma signup_sound (t : Readings) (b : SignupBody) (s : Store) :
  sound s → sound (snd (signup t b s)).
Proof.
  intros Hs. destruct (present (Js.or (email b) (phone b))) as [i|] eqn:Hp.
  - pose proof (signup_row_keyed b i (Some (created t)) Hp) as Hnew.
    destruct (signup_resolution t b s i Hp)
      as [(s1 & -> & Hws & Hcs)|(c & w & s1 & -> & Hres)]; simpl.
    + exact (maybe_snoc_sound s s1 _ Hs Hnew Hws Hcs).
    + exact (proj1 (resolved_sound s s1 i _ c w Hs Hnew Hres)).
  - by rewrite signup_no_identifier.
Qed.

Lemma stamps_add_sound (env : Env) (t : Readings) (b : StampBody) (s : Store) :
  sound s → sound (snd (stamps_add env t b s)).
Proof.
  intros Hs. destruct (token_accepted_dec env (token b)) as [Hv|Hv]; cycle 1.
  { by destruct (stamps_add_rejected env t b s Hv) as [[-> _]|[-> _]]. }
  destruct (present (identifier b)) as [i|] eqn:Hp; cycle 1.
  { by rewrite stamps_add_no_identifier. }
  pose proof (stamp_row_keyed t i) as Hnew.
  destruct (stamps_add_resolution env t b s i Hv Hp)
    as [(s1 & -> & Hws & _ & Hcs)|(c & w & s1 & reply & s' & -> & Hres & Haw)]; simpl.
  - exact (maybe_snoc_sound s s1 _ Hs Hnew Hws Hcs).
  - destruct (resolved_sound s s1 i _ c w Hs Hnew Hres) as [Hs1 Hc].
    eapply awarded_sound; [exact Hs1 | exact Hc | apply Hres | exact Haw].
Qed.

Lemma handle_sound (env : Env) (r : Request) (s : Store) :
  sound s → sound (snd (handle env r s)).
Proof. destruct r; [apply signup_sound | apply stamps_add_sound]. Qed.

Lemma serve_snd_cons (env : Env) (r : Request) (rs : list Request) (s : Store) :
  snd (serve env (r :: rs) s) = snd (serve env rs (snd (handle env r s))).
Proof.
  simpl. destruct (handle env r s) as [reply s']. simpl.
  by destruct (serve env rs s') as [replies s''].
Qed.

Lemma serve_fst_cons (env : Env) (r : Request) (rs : list Request) (s : Store) :
  fst (serve env (r :: rs) s)
  = fst (handle env r s) :: fst (serve env rs (snd (handle env r s))).
Proof.
  simpl. destruct (handle env r s) as [reply s']. simpl.
  by destruct (serve env rs s') as [replies s''].
Qed.

Lemma serve_sound (env : Env) (rs : list Request) (s : Store) :
  sound s → sound (snd (serve env rs s)).
Proof.
  revert s. induction rs as [|r rs IH]; intros s Hs; [done|].
  rewrite serve_snd_cons. by apply IH, handle_sound.
Qed.

Lemma reachable_sound (env : Env) (s : Store) : reachable env s → sound s.
Proof. intros [rs <-]. apply serve_sound, consistent_empty. Qed.

(** ** The range of the stamp count *)

(** C2, as the code has it.  After any sequence of signups and stamp
    requests served from the empty store, every wallet row holds a stamp
    count from 0 to 10, both included: a wallet rests at 10 between the scan
    that earns the reward and the scan that redeems it. *)
Theorem stamps_within_threshold (env : Env) (rs : list Request) :
  stamps_upto_threshold (snd (serve env rs fresh)).
Proof.
  intros id w Hw.
  destruct (serve_sound env rs fresh (consistent_empty 10)) as [_ _ Hr].
  exact (Hr id w Hw).
Qed.

(** The bound [stamps < 10] fails: signup and ten scans, three minutes
    apart, leave 10 in the wallet. *)
Lemma stamps_reach_threshold :
  ¬ (∀ env rs, stamps_below_threshold (snd (serve env rs fresh))).
Proof.
  intros H.
  destruct (H Scenario.env (Scenario.visits 10) "a@x.com"%string
              {| stamps := Some 10; last_redeemed_at := None;
                 last_stamped_at := Some (Scenario.t0 + 180000 * 10) |})
    as (n & Hn & Hb).
  - vm_compute. reflexivity.
  - injection Hn as <-. lia.
Qed.


(** ** A first scan creates the customer *)

(** In consistent tables, an identifier that finds no customer is no
    customer's id either, so the row made for it meets no constraint. *)
Lemma unknown_no_collision (hi : Z) (cs : list Customer) (ws : gmap string Wallet)
    (i : string) (row : Customer) :
  consistent hi cs ws →
  find_customer i cs = None →
  c_id row = i →
  (c_email row = None ∨ c_email row = Some i) →
  (c_phone row = None ∨ c_phone row = Some i) →
  existsb (collides row) cs = false.
Proof.
  intros [Hk _ _] Hnone Hid Hem Hph.
  apply not_true_is_false. intros (c & Hc%list_elem_of_In & Hcol)%existsb_exists.
  pose proof (unknown_unmatched i cs c Hnone Hc) as Hun.
  apply not_true_iff_false in Hun. apply Hun, matches_true.
  specialize (Hk c Hc). apply matches_true in Hk.
  unfold collides in Hcol. rewrite !orb_true_iff in Hcol.
  destruct Hcol as [[Hcol|Hcol]|Hcol].
  - apply bool_decide_eq_true in Hcol. rewrite Hid in Hcol. by rewrite <- Hcol.
  - destruct Hem as [Hem|Hem]; rewrite Hem in Hcol; [discriminate|].
    apply bool_decide_eq_true in Hcol. by left.
  - destruct Hph as [Hph|Hph]; rewrite Hph in Hcol; [discriminate|].
    apply bool_decide_eq_true in Hcol. by right.
Qed.

Lemma unknown_no_wallet (hi : Z) (cs : list Customer) (ws : gmap string Wallet)
    (i : string) :
  consistent hi cs ws → find_customer i cs = None → ws !! i = None.
Proof.
  intros [Hk Ho _] Hnone. destruct (ws !! i) as [w|] eqn:Hw; [|done].
  destruct (Ho i w Hw) as (c & Hc & <-).
  pose proof (unknown_unmatched _ cs c Hnone Hc) as Hun.
  rewrite (Hk c Hc) in Hun. discriminate.
Qed.

(** The stamp route on an identifier a sound store does not know: customer
    and wallet are inserted, and the award block runs on the new wallet. *)
Lemma stamps_add_new (env : Env) (t : Readings) (b : StampBody) (s : Store)
    (i : string) :
  sound s →
  isValidStaticToken env (token b) = Returned true →
  present (identifier b) = Some i →
  find_customer i (customers s) = None →
  stamps_add env t b s
  = try_catch (award t (scanned_customer t i) new_wallet)
      (λ _, Error 500 "Stamp add failed")
      {| customers := customers s ++ [scanned_customer t i];
         wallets := <[i := new_wallet]> (wallets s);
         journal := [InsertWallet i; SelectWallet i; SelectCustomer i;
                     InsertCustomer (scanned_customer t i); SelectCustomer i]
                    ++ journal s |}.
Proof.
  intros Hs Hv Hp Hf.
  assert (existsb (collides (scanned_customer t i)) (customers s) = false) as Hfree.
  { apply (unknown_no_collision 10 _ (wallets s) i); [done..| |];
      simpl; destruct (Js.includes i "@"); auto. }
  pose proof (unknown_no_wallet 10 _ _ i Hs Hf) as Hnw.
  unfold stamps_add, try_catch. rewrite (stamps_add_try_valid env t b i s Hv Hp).
  rewrite bind_run, getOrCreateCustomer_missing by exact Hf.
  fold (scanned_customer t i). rewrite Hfree.
  rewrite (find_snoc_new i _ _ Hf (stamp_row_keyed t i)).
  rewrite bind_run.
  rewrite (getOrCreateWallet_missing (scanned_customer t i));
    [reflexivity | apply elem_of_app; right; by apply list_elem_of_singleton | exact Hnw].
Qed.

(** C7.  An authorized stamp request whose identifier finds no customer in
    a reachable store creates one: its id is the identifier itself, the
    identifier sits in [email] when it contains an at-sign and in [phone]
    otherwise; the lookup after the insert returns that row; a wallet row
    with [stamps = 0] is inserted for it; and only then does the award block
    run, on that wallet.  With a clock at least [COOLDOWN_MS] past the epoch
    the block stamps it: the reply is stamp 1, and the journal shows the
    wallet insert before the update. *)
Theorem first_scan_creates_customer (env : Env) (t : Readings) (b : StampBody)
    (s : Store) (i : string) :
  reachable env s →
  isValidStaticToken env (token b) = Returned true →
  present (identifier b) = Some i →
  find_customer i (customers s) = None →
  let row := {| c_id := i; c_name := None;
                c_email := if Js.includes i "@" then Some i else None;
                c_phone := if Js.includes i "@" then None else Some i;
                c_created_at := Some (created t) |} in
  (∃ s1, customers s1 = customers s ++ [row]
     ∧ find_customer i (customers s1) = Some row
     ∧ wallets s !! i = None
     ∧ wallets s1 = <[i := {| stamps := Some 0; last_redeemed_at := None;
                              last_stamped_at := None |}]> (wallets s)
     ∧ stamps_add env t b s
       = try_catch (award t row new_wallet) (λ _, Error 500 "Stamp add failed") s1)
  ∧ (COOLDOWN_MS ≤ now t →
     fst (stamps_add env t b s) = Stamped i 1 false None
     ∧ customers (snd (stamps_add env t b s)) = customers s ++ [row]
     ∧ wallets (snd (stamps_add env t b s)) !! i
       = Some {| stamps := Some 1; last_redeemed_at := None;
                 last_stamped_at := Some (stampedAt t) |}
     ∧ journal (snd (stamps_add env t b s))
       = [UpdateWallet i 1 None (Some (stampedAt t)); InsertWallet i; SelectWallet i;
          SelectCustomer i; InsertCustomer row; SelectCustomer i] ++ journal s).
Proof.
  intros Hreach Hv Hp Hf row.
  pose proof (reachable_sound env s Hreach) as Hs.
  pose proof (stamps_add_new env t b s i Hs Hv Hp Hf) as Hrun.
  fold (scanned_customer t i) in row. subst row. split.
  - eexists. split_and!; [ | | | | exact Hrun]; simpl.
    + reflexivity.
    + apply find_snoc_new; [done | apply stamp_row_keyed].
    + by apply (unknown_no_wallet 10 (customers s)).
    + reflexivity.
  - intros Hclock. rewrite Hrun. unfold try_catch.
    rewrite award_accrue;
      [ | unfold elapsed; simpl; lia | simpl; lia
        | simpl; rewrite lookup_insert_eq; eauto ].
    simpl. rewrite lookup_insert_eq. done.
Qed.

Lemma first_scan_creates_customer_witness :
  reachable Scenario.env fresh
  ∧ fst (stamps_add Scenario.env (Scenario.at_ 0 0)
           {| identifier := Some "0401234567"%string; token := Js.Str "PASTA123" |} fresh)
    = Stamped "0401234567" 1 false None.
Proof.
  assert (reachable Scenario.env fresh) as Hreach by (by exists []).
  split; [exact Hreach|].
  refine (proj1 (proj2 (first_scan_creates_customer Scenario.env (Scenario.at_ 0 0)
                   {| identifier := Some "0401234567"%string; token := Js.Str "PASTA123" |}
                   fresh "0401234567" Hreach _ _ _) _)).
  - reflexivity.
  - reflexivity.
  - reflexivity.
  - vm_compute. discriminate.
Defined.

(** ** A full round of the card *)

Lemma serve_app (env : Env) (rs1 rs2 : list Request) (s : Store) :
  serve env (rs1 ++ rs2) s
  = (fst (serve env rs1 s) ++ fst (serve env rs2 (snd (serve env rs1 s))),
     snd (serve env rs2 (snd (serve env rs1 s)))).
Proof.
  revert s. induction rs1 as [|r rs1 IH]; intros s; simpl.
  - by destruct (serve env rs2 s).
  - destruct (handle env r s) as [reply s1]. rewrite IH.
    destruct (serve env rs1 s1) as [replies s2]. reflexivity.
Qed.

Section Scans.
Variables (env : Env) (tok : Js.Val) (who : string) (ts : nat → Readings).
Hypothesis tok_valid : isValidStaticToken env tok = Returned true.
Hypothesis who_present : who ≠ ""%string.
Hypothesis clock_real : ∀ k, COOLDOWN_MS ≤ now (ts k).
Hypothesis clock_apart : ∀ k, COOLDOWN_MS ≤ now (ts (S k)) - stampedAt (ts k).

(** [n] scans in a row on a wallet with room for them: each adds one
    stamp, and the one that reaches 10 carries the reward message. *)
Lemma scans_accrue (n : nat) :
  ∀ (k0 : nat) (s : Store) (c : Customer) (w : Wallet),
    find_customer who (customers s) = Some c →
    wallets s !! c_id c = Some w →
    allowed (ts k0) w →
    Js.or0 (stamps w) + Z.of_nat n ≤ 10 →
    ∃ s' w',
      serve env (map (scan_at tok who ts) (seq k0 n)) s
      = (map (λ j, Stamped (c_id c) (Js.or0 (stamps w) + Z.of_nat j) false
                     (if Js.or0 (stamps w) + Z.of_nat j =? 10
                      then Some rewardText else None))
           (seq 1 n), s')
      ∧ find_customer who (customers s') = Some c
      ∧ wallets s' !! c_id c = Some w'
      ∧ Js.or0 (stamps w') = Js.or0 (stamps w) + Z.of_nat n
      ∧ allowed (ts (k0 + n)) w'.
Proof.
  induction n as [|n IH]; intros k0 s c w Hf Hw Hok Hroom.
  - exists s, w. simpl. rewrite Nat.add_0_r, Z.add_0_r. done.
  - cbn [seq map serve handle scan_at].
    rewrite (stamps_add_accrue env (ts k0) _ s who c w);
      [ | done | by apply present_some | done | done | done | done | lia].
    set (s1 := written _ _ s).
    destruct (IH (S k0) s1 c (accrued (ts k0) w)) as (s' & w' & Hrun & Hf' & Hw' & Hn & Hok').
    + done.
    + subst s1. simpl. apply lookup_insert_eq.
    + unfold allowed. simpl. apply clock_apart.
    + unfold accrued. cbn [stamps]. rewrite or0_some. lia.
    + exists s', w'. rewrite Hrun. split_and!; try done.
      * cbn [seq map]. f_equal. f_equal.
        rewrite <- (seq_shift n 1), map_map. apply map_ext. intros j.
        unfold accrued. cbn [stamps]. rewrite or0_some.
        replace (Js.or0 (stamps w) + 1 + Z.of_nat j)
          with (Js.or0 (stamps w) + Z.of_nat (S j)) by lia.
        reflexivity.
      * rewrite Hn. unfold accrued. cbn [stamps]. rewrite or0_some. lia.
      * by rewrite Nat.add_succ_r.
Qed.
End Scans.

(** The one row of a table is found under its email. *)
Lemma find_customer_single (who : string) (row : Customer) :
  c_email row = Some who → find_customer who [row] = Some row.
Proof.
  intros He. unfold find_customer. cbn [List.find].
  by rewrite bool_decide_eq_true_2.
Qed.

(** Signup with an email alone on the empty store. *)
Lemma signup_fresh (t : Readings) (nm : option string) (who : string) :
  who ≠ ""%string →
  let row := {| c_id := who; c_name := nm; c_email := Some who; c_phone := None;
                c_created_at := Some (created t) |} in
  signup t {| name := nm; email := Some who; phone := None |} fresh
  = (SignedUp who nm (Some who) None 0,
     {| customers := [row]; wallets := <[who := new_wallet]> ∅;
        journal := [InsertWallet who; SelectWallet who; SelectCustomer who;
                    InsertCustomer row; SelectCustomer who] |}).
Proof.
  intros Hwho row.
  unfold signup, try_catch, signup_try. cbn [email phone name].
  assert (Js.or (Some who) None = Some who) as -> by by apply or_null_some.
  rewrite present_some by done.
  change (Js.or None None) with (@None string).
  rewrite bind_run, getOrCreateCustomer_missing by done. fold row.
  cbn [customers fresh existsb app].
  rewrite (find_customer_single who row) by done.
  rewrite bind_run, (getOrCreateWallet_missing row);
    [reflexivity | by apply list_elem_of_singleton | apply lookup_empty].
Qed.

(** C6, as the code has it.  On the empty store a customer signs up with an
    email and gets [stamps = 0]; scans with the cooldown run out between
    them then return 1, 2, ... 9 without a message, the tenth returns 10
    with the reward message and [redeemed = false], and the eleventh returns
    0 with [redeemed = true]. *)
Theorem loyalty_round (env : Env) (tok : Js.Val) (who : string) (nm : option string)
    (ts : nat → Readings) :
  isValidStaticToken env tok = Returned true →
  who ≠ ""%string →
  (∀ k, COOLDOWN_MS ≤ now (ts k)) →
  (∀ k, COOLDOWN_MS ≤ now (ts (S k)) - stampedAt (ts k)) →
  fst (serve env
         (PostSignup (ts 0%nat) {| name := nm; email := Some who; phone := None |}
          :: map (scan_at tok who ts) (seq 1 11))
         fresh)
  = SignedUp who nm (Some who) None 0
    :: map (λ j, Stamped who (Z.of_nat j) false None) (seq 1 9)
    ++ [Stamped who 10 false (Some rewardText); Stamped who 0 true None].
Proof.
  intros Hv Hwho Hreal Hapart.
  rewrite serve_fst_cons. cbn [handle].
  rewrite (signup_fresh (ts 0%nat) nm who Hwho). cbn [fst snd].
  set (row := {| c_id := who; c_name := nm; c_email := Some who; c_phone := None;
                 c_created_at := Some (created (ts 0%nat)) |}).
  set (s0 := {| customers := [row]; wallets := _; journal := _ |}).
  change (seq 1 11) with (seq 1 10 ++ [11%nat]).
  rewrite map_app, serve_app. cbn [fst].
  destruct (scans_accrue env tok who ts Hv Hwho Hreal Hapart 10 1 s0 row new_wallet)
    as (s' & w' & Hrun & Hf & Hw & Hn & Hok).
  - subst s0. cbn [customers]. by apply find_customer_single.
  - subst s0. simpl. apply lookup_insert_eq.
  - done.
  - simpl. lia.
  - rewrite Hrun. cbn [fst snd map serve handle scan_at].
    rewrite (stamps_add_redeem env (ts 11%nat) _ s' who row w');
      [ | done | by apply present_some | done | done | done | done
        | rewrite Hn; simpl; lia ].
    reflexivity.
Qed.

Lemma loyalty_round_witness :
  isValidStaticToken Scenario.env (Js.Str "PASTA123") = Returned true
  ∧ fst (serve Scenario.env
           (PostSignup (Scenario.at_ 180000 0)
              {| name := None; email := Some "a@x.com"%string; phone := None |}
            :: map (scan_at (Js.Str "PASTA123") "a@x.com" (Scenario.at_ 180000)) (seq 1 11))
           fresh)
    = SignedUp "a@x.com" None (Some "a@x.com"%string) None 0
      :: map (λ j, Stamped "a@x.com" (Z.of_nat j) false None) (seq 1 9)
      ++ [Stamped "a@x.com" 10 false (Some rewardText); Stamped "a@x.com" 0 true None].
Proof.
  split; [reflexivity|].
  apply (loyalty_round Scenario.env (Js.Str "PASTA123") "a@x.com" None
           (Scenario.at_ 180000)).
  - reflexivity.
  - discriminate.
  - intros k. unfold Scenario.at_, Scenario.t0, COOLDOWN_MS. simpl. lia.
  - intros k. unfold Scenario.at_, Scenario.t0, COOLDOWN_MS. simpl. lia.
Defined.

(** The run the specification describes does not happen: after signup, the
    ninth scan carries no reward message and the tenth does not redeem. *)
Lemma ninth_scan_has_no_reward :
  ¬ (∃ msg redeemed9 msg10,
       fst (serve Scenario.env (Scenario.visits 10) fresh) !! 9%nat
       = Some (Stamped "a@x.com" 9 redeemed9 (Some msg))
       ∧ fst (serve Scenario.env (Scenario.visits 10) fresh) !! 10%nat
         = Some (Stamped "a@x.com" 0 true msg10)).
Proof.
  intros (msg & r9 & msg10 & H9 & _). vm_compute in H9. discriminate H9.
Qed.

(** * Further properties of the two routes *)

(** ** No failure on a reachable store *)

(** In consistent tables the customer lookup-or-insert of the stamp route
    cannot throw: an unknown identifier meets no constraint, and the lookup
    after the insert finds the new row. *)
Lemma scan_customer_resolves (t : Readings) (i : string) (s : Store) :
  sound s →
  ∃ c s1,
    getOrCreateCustomer (created t) i None
      (if Js.includes i "@" then Some i else None)
      (if Js.includes i "@" then None else Some i) s
    = (Returned c, s1)
    ∧ c ∈ customers s1.
Proof.
  intros Hs. destruct (find_customer i (customers s)) as [c|] eqn:Hf.
  - rewrite (getOrCreateCustomer_found _ _ _ _ _ c) by done.
    eexists _, _. split; [done|]. exact (proj1 (find_elem_of _ _ _ Hf)).
  - rewrite getOrCreateCustomer_missing by done. fold (scanned_customer t i).
    rewrite (unknown_no_collision 10 _ (wallets s) i); [ | done | done | done | | ];
      [ | simpl; destruct (Js.includes i "@"); auto.. ].
    rewrite (find_snoc_new i _ _ Hf (stamp_row_keyed t i)).
    eexists _, _. split; [done|]. cbn [customers].
    apply elem_of_app. right. by apply list_elem_of_singleton.
Qed.

(** X1.  On every store the API can reach, a stamp request with a valid
    token and a non-empty string as its identifier is never answered 500:
    the reply is the stamp or the cooldown reply, status 200. *)
Theorem stamps_add_never_fails (env : Env) (t : Readings) (b : StampBody) (s : Store)
    (i : string) :
  reachable env s →
  isValidStaticToken env (token b) = Returned true →
  present (identifier b) = Some i →
  status (fst (stamps_add env t b s)) = 200
  ∧ ∃ c w s1, resolved s i (scanned_customer t i) c w s1
              ∧ awarded t c w s1 (fst (stamps_add env t b s)) (snd (stamps_add env t b s)).
Proof.
  intros Hreach Hv Hp. pose proof (reachable_sound env s Hreach) as Hs.
  destruct (scan_customer_resolves t i s Hs) as (c0 & s0 & Hc0 & Hin0).
  destruct (stamps_add_resolution env t b s i Hv Hp)
    as [(s1 & Hrun & _)|(c & w & s1 & reply & s' & Hrun & Hres & Haw)].
  - exfalso. revert Hrun. unfold stamps_add, try_catch.
    rewrite (stamps_add_try_valid env t b i s Hv Hp). rewrite bind_run, Hc0, bind_run.
    pose proof (getOrCreateWallet_spec (c_id c0) s0 (ex_intro _ c0 (conj Hin0 eq_refl))
                  s0 eq_refl) as Hw.
    destruct (getOrCreateWallet (c_id c0) s0) as [[w|e] s2]; [|done].
    destruct (award_awarded t c0 w s2) as (reply & s' & Hrun & Haw).
    { destruct Hw as (Hw & _). rewrite Hw. eauto. }
    rewrite Hrun. intros [= Hreply _]. apply awarded_status in Haw.
    rewrite Hreply in Haw. discriminate.
  - rewrite Hrun. simpl. split; [exact (awarded_status _ _ _ _ _ _ Haw)|].
    by exists c, w, s1.
Qed.

Lemma stamps_add_never_fails_witness :
  reachable Scenario.env (Scenario.after 3)
  ∧ status (fst (stamps_add Scenario.env (Scenario.soon_after 3) Scenario.body
                   (Scenario.after 3))) = 200.
Proof.
  assert (reachable Scenario.env (Scenario.after 3)) as Hreach
    by (by exists (Scenario.visits 3)).
  split; [exact Hreach|].
  exact (proj1 (stamps_add_never_fails Scenario.env (Scenario.soon_after 3) Scenario.body
                  (Scenario.after 3) "a@x.com" Hreach eq_refl eq_refl)).
Defined.

(** ** When signup fails *)

Lemma present_or_email (b : SignupBody) (i : string) :
  present (Js.or (email b) (phone b)) = Some i →
  (Js.truthy_str (email b) = true ∧ email b = Some i
   ∧ Js.or (email b) None = Some i)
  ∨ (Js.truthy_str (email b) = false ∧ phone b = Some i
     ∧ Js.or (email b) None = None ∧ Js.or (phone b) None = Some i).
Proof.
  intros H. unfold present in H.
  destruct (Js.truthy_str (Js.or (email b) (phone b))) eqn:Ht; [|discriminate].
  unfold Js.or in *. destruct (Js.truthy_str (email b)) eqn:He.
  - by left.
  - right. by rewrite Ht.
Qed.

(** The one constraint a signup row can meet in consistent tables: its
    phone, when the identifier is the email. *)
Lemma signup_collision (hi : Z) (cs : list Customer) (ws : gmap string Wallet)
    (i : string) (nm ph : option string) (created : option Z) :
  consistent hi cs ws →
  find_customer i cs = None →
  existsb (collides {| c_id := i; c_name := nm; c_email := Some i; c_phone := ph;
                       c_created_at := created |}) cs
  = existsb (λ c, match ph with
                  | Some p => bool_decide (c_phone c = Some p)
                  | None => false
                  end) cs.
Proof.
  intros [Hk _ _] Hnone.
  pose proof (proj1 (find_customer_None i cs) Hnone) as Hun. clear Hnone.
  induction cs as [|c cs IH]; [done|].
  assert (matches i c = false) as Hm by (apply Hun; by left).
  cbn [existsb].
  rewrite IH; [|intros c' Hc'; apply Hk; by right|intros c' Hc'; apply Hun; by right].
  f_equal. unfold collides. cbn [c_id c_email c_phone].
  assert (matches (c_id c) c = true) as Hself by (apply Hk; by left).
  rewrite (bool_decide_eq_false_2 (c_id c = i)); cycle 1.
  { intros Heq. rewrite Heq, Hm in Hself. discriminate. }
  rewrite (bool_decide_eq_false_2 (c_email c = Some i)); [done|].
  intros Heq. apply not_true_iff_false in Hm. apply Hm, matches_true. by left.
Qed.

Ltac wallet_step Hw w s2 :=
  match goal with
  | |- context [getOrCreateWallet ?id ?s0] =>
      let Hin := fresh "Hin" in
      assert (∃ c, c ∈ customers s0 ∧ c_id c = id) as Hin;
      [ | pose proof (getOrCreateWallet_spec id s0 Hin s0 eq_refl) as Hw;
          destruct (getOrCreateWallet id s0) as [[w|?] s2]; [|done] ]
  end.

Ltac new_row_stored :=
  eexists; split;
  [cbn [customers]; apply elem_of_app; right; by apply list_elem_of_singleton | done].

(** X2.  On a reachable store, signup with an identifier, for a request
    whose [name], [email] and [phone] are each absent, [null] or a string, is
    answered 500 in exactly one situation: the identifier finds no customer,
    it is the email, and the request also carries a phone that a stored
    customer already has.  The unique constraint then rejects the insert,
    and no row of either table changes; in every other case the reply is the
    customer. *)
Theorem signup_fails_iff_phone_taken (env : Env) (t : Readings) (b : SignupBody)
    (s : Store) (i : string) :
  reachable env s →
  present (Js.or (email b) (phone b)) = Some i →
  (status (fst (signup t b s)) = 500
   ↔ find_customer i (customers s) = None
     ∧ Js.truthy_str (email b) = true
     ∧ ∃ p c, present (phone b) = Some p ∧ c ∈ customers s ∧ c_phone c = Some p)
  ∧ (status (fst (signup t b s)) = 500 →
     customers (snd (signup t b s)) = customers s
     ∧ wallets (snd (signup t b s)) = wallets s)
  ∧ (status (fst (signup t b s)) ≠ 500 →
     ∃ c w, fst (signup t b s)
            = SignedUp (c_id c) (c_name c) (c_email c) (c_phone c) (Js.or0 (stamps w))
            ∧ find_customer i (customers (snd (signup t b s))) = Some c
            ∧ wallets (snd (signup t b s)) !! c_id c = Some w).
Proof.
  intros Hreach Hp. pose proof (reachable_sound env s Hreach) as Hs.
  unfold signup, try_catch, signup_try. rewrite Hp, bind_run.
  destruct (find_customer i (customers s)) as [c|] eqn:Hf.
  - (* the customer is on file *)
    rewrite (getOrCreateCustomer_found _ _ _ _ _ c) by done. rewrite bind_run.
    wallet_step Hw w s2;
      [exists c; split; [exact (proj1 (find_elem_of _ _ _ Hf)) | done] |].
    destruct Hw as (Hw & Hcs & _). simpl. split_and!.
    + split; [discriminate | by intros [? _]].
    + discriminate.
    + intros _. exists c, w. rewrite Hcs. done.
  - rewrite getOrCreateCustomer_missing by done.
    destruct (present_or_email b i Hp) as [(He & Hem & Hrow)|(He & Hph & Hrow & Hrow')].
    + (* the identifier is the email *)
      rewrite Hrow. rewrite (signup_collision 10 _ (wallets s)) by done.
      destruct (existsb _ (customers s)) eqn:Hex.
      * simpl. split_and!; [|done|done].
        split; [intros _|done]. split_and!; [done..|].
        apply existsb_exists in Hex as (c & Hc%list_elem_of_In & Hcol).
        destruct (Js.or (phone b) None) as [p|] eqn:Hor; [|done].
        apply bool_decide_eq_true in Hcol. exists p, c. split_and!; [|done..].
        unfold Js.or, present in *. by destruct (Js.truthy_str (phone b)).
      * rewrite find_snoc_new; [ | done | ]; cycle 1.
        { apply matches_true. simpl. auto. }
        rewrite bind_run.
        cbn [c_id]. wallet_step Hw w s2; [new_row_stored|].
        destruct Hw as (Hw & Hcs & _). simpl. split_and!.
        -- split; [discriminate|]. intros (_ & _ & p & c & Hpp & Hc & Hcp).
           apply not_true_iff_false in Hex. exfalso. apply Hex.
           apply existsb_exists. exists c. split; [by apply list_elem_of_In|].
           assert (Js.or (phone b) None = Some p) as ->.
           { unfold Js.or, present in *. by destruct (Js.truthy_str (phone b)). }
           by apply bool_decide_eq_true.
        -- discriminate.
        -- intros _.
           match type of Hcs with context [customers s ++ [?r]] => exists r, w end.
           split; [reflexivity|]. rewrite Hcs. simpl.
           split; [|done]. apply find_snoc_new; [done|].
           apply matches_true. simpl. auto.
    + (* the identifier is the phone *)
      rewrite Hrow, Hrow'.
      rewrite (unknown_no_collision 10 _ (wallets s) i); [ | done | done | done | | ];
        [ | simpl; auto.. ].
      rewrite find_snoc_new; [ | done | ]; cycle 1.
      { apply matches_true. simpl. auto. }
      rewrite bind_run.
      cbn [c_id]. wallet_step Hw w s2; [new_row_stored|].
      destruct Hw as (Hw & Hcs & _). simpl. split_and!.
      * split; [discriminate|]. intros (_ & Hcontra & _). congruence.
      * discriminate.
      * intros _.
           match type of Hcs with context [customers s ++ [?r]] => exists r, w end.
           split; [reflexivity|]. rewrite Hcs. simpl.
        split; [|done]. apply find_snoc_new; [done|].
        apply matches_true. simpl. auto.
Qed.

Lemma signup_fails_iff_phone_taken_witness :
  reachable Scenario.env Scenario.with_phone
  ∧ status (fst (signup (Scenario.at_ 0 1) Scenario.same_phone Scenario.with_phone)) = 500.
Proof.
  assert (reachable Scenario.env Scenario.with_phone) as Hreach.
  { exists [PostSignup (Scenario.at_ 0 0)
              {| name := None; email := Some "a@x.com"%string;
                 phone := Some "0401234567"%string |}].
    reflexivity. }
  split; [exact Hreach|].
  apply (proj1 (signup_fails_iff_phone_taken Scenario.env (Scenario.at_ 0 1)
                  Scenario.same_phone Scenario.with_phone "b@x.com" Hreach eq_refl)).
  split; [reflexivity|]. split; [reflexivity|].
  exists "0401234567"%string,
    {| c_id := "a@x.com"; c_name := None; c_email := Some "a@x.com"%string;
       c_phone := Some "0401234567"%string; c_created_at := Some Scenario.t0 |}.
  split; [reflexivity|]. split; [|reflexivity].
  apply list_elem_of_In. left. reflexivity.
Defined.

(** ** What a request may change *)

(** X3.  Customer rows are append-only: serving any requests leaves the
    stored rows as they were, in their order, and adds at most one row per
    request at the end. *)
Theorem customers_append_only (env : Env) (rs : list Request) (s : Store) :
  ∃ new, customers (snd (serve env rs s)) = customers s ++ new
         ∧ (length new ≤ length rs)%nat.
Proof.
  assert (∀ r s0, ∃ new, customers (snd (handle env r s0)) = customers s0 ++ new
                         ∧ (length new ≤ 1)%nat) as Hstep.
  { intros [t b|t b] s0; simpl.
    - destruct (present (Js.or (email b) (phone b))) as [i|] eqn:Hp.
      + destruct (signup_resolution t b s0 i Hp)
          as [(s1 & -> & _ & [Hcs|Hcs])|(c & w & s1 & -> & [_ _ [Hcs|[_ Hcs]] _ _])];
          simpl; rewrite Hcs;
          first [ by (exists []; rewrite app_nil_r; split; [done | simpl; lia])
                | eexists [_]; split; [done | simpl; lia] ].
      + rewrite signup_no_identifier by done.
        exists []. rewrite app_nil_r. split; [done | simpl; lia].
    - destruct (token_accepted_dec env (token b)) as [Hv|Hv]; cycle 1.
      { destruct (stamps_add_rejected env t b s0 Hv) as [[-> _]|[-> _]];
          exists []; rewrite app_nil_r; (split; [done | simpl; lia]). }
      destruct (present (identifier b)) as [i|] eqn:Hp; cycle 1.
      { rewrite stamps_add_no_identifier by done.
        exists []. rewrite app_nil_r. split; [done | simpl; lia]. }
      destruct (stamps_add_resolution env t b s0 i Hv Hp)
        as [(s1 & -> & _ & _ & [Hcs|Hcs])
           |(c & w & s1 & reply & s' & -> & [_ _ [Hcs|[_ Hcs]] _ _] & Haw)];
        simpl; rewrite ?(awarded_customers _ _ _ _ _ _ Haw), Hcs;
        first [ by (exists []; rewrite app_nil_r; split; [done | simpl; lia])
              | eexists [_]; split; [done | simpl; lia] ]. }
  revert s. induction rs as [|r rs IH]; intros s.
  - exists []. rewrite app_nil_r. split; [done | simpl; lia].
  - rewrite serve_snd_cons.
    destruct (Hstep r s) as (new1 & H1 & Hl1).
    destruct (IH (snd (handle env r s))) as (new2 & H2 & Hl2).
    exists (new1 ++ new2). rewrite H2, H1, <- app_assoc. split; [done|].
    rewrite length_app. simpl. lia.
Qed.

(** X4.  Signup never writes a stamp: it leaves every wallet row as it was,
    adds at most one row, an empty wallet under an id that had none, and
    journals no wallet update. *)
Theorem signup_keeps_wallets (t : Readings) (b : SignupBody) (s : Store) :
  (wallets (snd (signup t b s)) = wallets s
   ∨ ∃ id, wallets s !! id = None
           ∧ wallets (snd (signup t b s))
             = <[id := {| stamps := Some 0; last_redeemed_at := None;
                          last_stamped_at := None |}]> (wallets s))
  ∧ (∀ id w, wallets s !! id = Some w → wallets (snd (signup t b s)) !! id = Some w)
  ∧ updates (snd (signup t b s)) = updates s.
Proof.
  assert ((wallets (snd (signup t b s)) = wallets s
           ∨ ∃ id, wallets s !! id = None
                   ∧ wallets (snd (signup t b s)) = <[id := new_wallet]> (wallets s))
          ∧ updates (snd (signup t b s)) = updates s) as [Hws Hup].
  { destruct (present (Js.or (email b) (phone b))) as [i|] eqn:Hp.
    - destruct (signup_resolution t b s i Hp)
        as [(s1 & Hrun & Hws & _)|(c & w & s1 & Hrun & [_ _ _ Hws Hup])].
      + rewrite Hrun. simpl. split; [by left|].
        revert Hrun. unfold signup, try_catch, signup_try. rewrite Hp, bind_run.
        pose proof (getOrCreateCustomer_spec (created t) i (name b)
                      (Js.or (email b) None) (Js.or (phone b) None) s s eq_refl) as Hc.
        destruct (getOrCreateCustomer _ _ _ _ _ s) as [[c|e] s0].
        * rewrite bind_run.
          pose proof (getOrCreateWallet_spec (c_id c) s0
                        (ex_intro _ c (conj (proj1 (find_elem_of _ _ _ (proj1 Hc))) eq_refl))
                        s0 eq_refl) as Hw.
          destruct (getOrCreateWallet (c_id c) s0) as [[w|e] s2]; [|done].
          discriminate.
        * intros [= <-]. unfold updates. by destruct Hc as (_ & -> & _).
      + rewrite Hrun. simpl. unfold updates. rewrite Hup. split; [|done].
        destruct Hws as [->|(Hnone & _ & ->)]; [by left|right; eauto].
    - rewrite signup_no_identifier by done. simpl. auto. }
  split_and!; [exact Hws | | exact Hup].
  intros id w Hw. destruct Hws as [->|(id' & Hnone & ->)]; [done|].
  rewrite lookup_insert_ne; [done|]. intros ->. congruence.
Qed.

(** X5.  The stamp route updates the ledger exactly when it answers with a
    stamp: a [Stamped] reply comes with one more wallet update in the
    journal, and every other reply (401, 400, 500, cooldown) with none. *)
Theorem update_iff_stamped (env : Env) (t : Readings) (b : StampBody) (s : Store) :
  updates (snd (stamps_add env t b s))
  = if is_stamped (fst (stamps_add env t b s)) then S (updates s) else updates s.
Proof.
  destruct (token_accepted_dec env (token b)) as [Hv|Hv]; cycle 1.
  { by destruct (stamps_add_rejected env t b s Hv) as [[-> _]|[-> _]]. }
  destruct (present (identifier b)) as [i|] eqn:Hp; cycle 1.
  { by rewrite stamps_add_no_identifier. }
  destruct (stamps_add_resolution env t b s i Hv Hp)
    as [(s1 & -> & _ & Hup & _)|(c & w & s1 & reply & s' & -> & [_ _ _ _ Hup] & Haw)];
    simpl; unfold updates.
  - by rewrite Hup.
  - destruct Haw; simpl; by rewrite Hup.
Qed.

(** What a cooldown reply tells about the store: nothing was written, and
    the reply was computed from the wallet row of its customer. *)
Lemma cooldown_post (env : Env) (t : Readings) (b : StampBody) (s : Store)
    (id : string) (n m sl : Z) :
  fst (stamps_add env t b s) = Cooldown id n m sl →
  ∃ w, wallets (snd (stamps_add env t b s)) !! id = Some w
       ∧ elapsed t w < COOLDOWN_MS
       ∧ n = Js.or0 (stamps w) ∧ m = 2
       ∧ sl = Js.ceil_div (COOLDOWN_MS - elapsed t w) 1000.
Proof.
  intros Hreply.
  destruct (token_accepted_dec env (token b)) as [Hv|Hv]; cycle 1.
  { destruct (stamps_add_rejected env t b s Hv) as [[Hrun _]|[Hrun _]];
      rewrite Hrun in Hreply; discriminate. }
  destruct (present (identifier b)) as [i|] eqn:Hp; cycle 1.
  { rewrite stamps_add_no_identifier in Hreply by done. discriminate. }
  destruct (stamps_add_resolution env t b s i Hv Hp)
    as [(s1 & Hrun & _)|(c & w & s1 & reply & s' & Hrun & [_ Hw _ _ _] & Haw)];
    rewrite Hrun in Hreply |- *; simpl in Hreply |- *; [discriminate|].
  destruct Haw; simplify_eq. by exists w.
Qed.

(** X6.  A cooldown reply always announces 2 minutes and at least one
    second left; and when the stored stamp time is not ahead of the clock,
    at most 120 seconds. *)
Theorem cooldown_reply_bounds (env : Env) (t : Readings) (b : StampBody) (s : Store)
    (id : string) (n m sl : Z) :
  fst (stamps_add env t b s) = Cooldown id n m sl →
  m = 2 ∧ 1 ≤ sl
  ∧ ∃ w, wallets (snd (stamps_add env t b s)) !! id = Some w
         ∧ n = Js.or0 (stamps w)
         ∧ (0 ≤ elapsed t w → sl ≤ 120).
Proof.
  intros Hreply.
  destruct (cooldown_post env t b s id n m sl Hreply) as (w & Hw & Hlt & -> & -> & ->).
  pose proof (ceil_div_spec (COOLDOWN_MS - elapsed t w) 1000 ltac:(lia)) as Hceil.
  unfold COOLDOWN_MS in *. split_and!; [done | lia |].
  exists w. split_and!; [done..|]. intros Hpos. lia.
Qed.

Lemma cooldown_reply_bounds_witness :
  fst (stamps_add Scenario.env (Scenario.soon_after 1) Scenario.body (Scenario.after 1))
  = Cooldown "a@x.com" 1 2 90
  ∧ (2 = 2 ∧ 1 ≤ 90).
Proof.
  assert (fst (stamps_add Scenario.env (Scenario.soon_after 1) Scenario.body
                 (Scenario.after 1)) = Cooldown "a@x.com" 1 2 90) as Hreply
    by (vm_compute; reflexivity).
  split; [exact Hreply|].
  destruct (cooldown_reply_bounds Scenario.env (Scenario.soon_after 1) Scenario.body
              (Scenario.after 1) "a@x.com" 1 2 90 Hreply) as (H1 & H2 & _).
  exact (conj H1 H2).
Defined.

(** ** Customers and their ids *)

Lemma getOrCreateCustomer_grows (created : Z) (i : string) (nm em ph : option string)
    (s : Store) :
  let row := {| c_id := i; c_name := nm; c_email := em; c_phone := ph;
                c_created_at := Some created |} in
  customers (snd (getOrCreateCustomer created i nm em ph s)) = customers s
  ∨ (find_customer i (customers s) = None
     ∧ customers (snd (getOrCreateCustomer created i nm em ph s)) = customers s ++ [row]).
Proof.
  intros row. destruct (find_customer i (customers s)) as [c|] eqn:Hf.
  - rewrite (getOrCreateCustomer_found _ _ _ _ _ c) by done. by left.
  - rewrite getOrCreateCustomer_missing by done. fold row.
    destruct (existsb (collides row) (customers s)); [by left|].
    right. split; [done|].
    by destruct (find_customer i (customers s ++ [row])).
Qed.

(** After the customer step, a route leaves [customers] alone. *)
Lemma route_customers {A : Type} (m : M Customer) (k : Customer → Wallet → M A)
    (h : Exn → A) (s : Store) :
  (∀ c w s1 , customers (snd (k c w s1)) = customers s1) →
  customers (snd (try_catch (c ← m; w ← getOrCreateWallet (c_id c); k c w) h s))
  = customers (snd (m s)).
Proof.
  intros Hk. unfold try_catch. rewrite bind_run.
  destruct (m s) as [[c|e] s1]; [|done]. rewrite bind_run. cbn [snd].
  pose proof (getOrCreateWallet_frame (c_id c) s1) as (Hcs & _).
  destruct (getOrCreateWallet (c_id c) s1) as [[w|e] s2]; cbn [snd] in Hcs.
  - rewrite <- Hcs, <- (Hk c w s2). by destruct (k c w s2) as [[a|e] s3].
  - by rewrite <- Hcs.
Qed.

(** An update never throws and touches no customer row, wallet row or no. *)
Lemma updateWallet_returns (id : string) (n : Z) (r l : option Z) (s : Store) :
  ∃ s', updateWallet id n r l s = (Returned tt, s') ∧ customers s' = customers s.
Proof.
  unfold updateWallet. run. destruct (wallets s !! id); eauto.
Qed.

Lemma award_customers (t : Readings) (c : Customer) (w : Wallet) (s : Store) :
  customers (snd (award t c w s)) = customers s.
Proof.
  unfold award.
  destruct (_ <? COOLDOWN_MS); [done|].
  destruct (_ <? 10); rewrite bind_run.
  - destruct (updateWallet_returns (c_id c) (Js.or0 (stamps w) + 1) (last_redeemed_at w)
                (Some (stampedAt t)) s) as (s' & -> & Hcs). done.
  - destruct (updateWallet_returns (c_id c) 0 (Some (redeemedAt t))
                (Some (stampedAt t)) s) as (s' & -> & Hcs). done.
Qed.

(** One request appends at most the row made for an identifier that found
    no customer: a row found under that identifier, whose email is the
    identifier or [NULL]. *)
Lemma handle_grows (env : Env) (r : Request) (s : Store) :
  customers (snd (handle env r s)) = customers s
  ∨ ∃ new, find_customer (c_id new) (customers s) = None
           ∧ matches (c_id new) new = true
           ∧ (c_email new = None ∨ c_email new = Some (c_id new))
           ∧ customers (snd (handle env r s)) = customers s ++ [new].
Proof.
  destruct r as [t b|t b]; simpl.
  - destruct (present (Js.or (email b) (phone b))) as [i|] eqn:Hp; cycle 1.
    { rewrite signup_no_identifier by done. by left. }
    unfold signup, signup_try. rewrite Hp, route_customers by done.
    destruct (getOrCreateCustomer_grows (created t) i (name b) (Js.or (email b) None)
                (Js.or (phone b) None) s) as [Hcs|[Hf Hcs]]; [by left|].
    right. eexists. split_and!; [ | | | exact Hcs]; [done| |].
    + by apply signup_row_keyed.
    + cbn [c_email c_id].
      destruct (present_or_email b i Hp) as [(_ & _ & ->)|(_ & _ & -> & _)]; auto.
  - destruct (token_accepted_dec env (token b)) as [Hv|Hv]; cycle 1.
    { left. by destruct (stamps_add_rejected env t b s Hv) as [[-> _]|[-> _]]. }
    destruct (present (identifier b)) as [i|] eqn:Hp; cycle 1.
    { rewrite stamps_add_no_identifier by done. by left. }
    assert (stamps_add env t b s
            = try_catch (customer ← getOrCreateCustomer (created t) i None
                                       (if Js.includes i "@" then Some i else None)
                                       (if Js.includes i "@" then None else Some i);
                         wallet ← getOrCreateWallet (c_id customer);
                         award t customer wallet)
                (λ _, Error 500 "Stamp add failed") s) as ->.
    { unfold stamps_add, try_catch. by rewrite (stamps_add_try_valid env t b i s Hv Hp). }
    rewrite route_customers by apply award_customers.
    destruct (getOrCreateCustomer_grows (created t) i None
                (if Js.includes i "@" then Some i else None)
                (if Js.includes i "@" then None else Some i) s) as [Hcs|[Hf Hcs]];
      [by left|].
    right. eexists. split_and!; [ | | | exact Hcs]; [done| |].
    + apply (stamp_row_keyed t i).
    + cbn [c_email c_id]. destruct (Js.includes i "@"); auto.
Qed.

(** X8.  On every store the API can reach, looking up a stored customer's
    own id as an identifier returns that very customer, and every wallet
    row belongs to such a customer: the wallet of customer [id] is always the
    one a request with identifier [id] works on. *)
Theorem reachable_ids_resolve (env : Env) (s : Store) :
  reachable env s →
  (∀ c, c ∈ customers s → find_customer (c_id c) (customers s) = Some c)
  ∧ (∀ id w, wallets s !! id = Some w →
       ∃ c, find_customer id (customers s) = Some c ∧ c_id c = id).
Proof.
  intros Hreach.
  assert (∀ c, c ∈ customers s → find_customer (c_id c) (customers s) = Some c)
    as Hself.
  { destruct Hreach as [rs <-].
    assert (∀ s0, (∀ c, c ∈ customers s0 →
                        find_customer (c_id c) (customers s0) = Some c) →
                  ∀ c, c ∈ customers (snd (serve env rs s0)) →
                       find_customer (c_id c) (customers (snd (serve env rs s0)))
                       = Some c) as Hall.
    { induction rs as [|r rs IH]; intros s0 Hinv; [exact Hinv|].
      rewrite serve_snd_cons. apply IH.
      destruct (handle_grows env r s0) as [->|(new & Hnone & Hkey & Hem & ->)];
        [exact Hinv|].
      intros c [Hc|Hc%list_elem_of_singleton]%elem_of_app.
      - apply find_snoc_old; [by apply Hinv|]. intros Heq.
        destruct Hem as [Hem|Hem]; rewrite Hem in Heq; [discriminate|].
        injection Heq as Heq. pose proof (Hinv c Hc) as Hfc.
        rewrite <- Heq in Hfc. congruence.
      - subst c. by apply find_snoc_new. }
    apply Hall. intros c Hc. by apply elem_of_nil in Hc. }
  split; [exact Hself|].
  intros id w Hw. destruct (reachable_sound env s Hreach) as [_ Ho _].
  destruct (Ho id w Hw) as (c & Hc & <-). exists c. split; [by apply Hself | done].
Qed.

Lemma reachable_ids_resolve_witness :
  reachable Scenario.env (Scenario.after 2)
  ∧ ∃ c, find_customer "a@x.com" (customers (Scenario.after 2)) = Some c
         ∧ c_id c = "a@x.com"%string.
Proof.
  assert (reachable Scenario.env (Scenario.after 2)) as Hreach
    by (by exists (Scenario.visits 2)).
  split; [exact Hreach|].
  apply (proj2 (reachable_ids_resolve Scenario.env (Scenario.after 2) Hreach)
           "a@x.com"%string (Scenario.wallet 2)).
  vm_compute. reflexivity.
Defined.

(** ** The token validator on strings *)

(** X7.  A string token is accepted exactly when it is the configured
    secret, and the secret is the environment variable when that is set and
    not empty, [PASTA123] otherwise; so the empty string is never accepted,
    not even with an empty variable. *)
Theorem string_token_accepted (env : Env) (x : string) :
  (isValidStaticToken env (Js.Str x) = Returned true
   ↔ x = match env_QR_SECRET env with
         | Some e => if String.eqb e "" then "PASTA123"%string else e
         | None => "PASTA123"%string
         end)
  ∧ isValidStaticToken env (Js.Str "") = Returned false.
Proof.
  assert (QR_SECRET env
          = match env_QR_SECRET env with
            | Some e => if String.eqb e "" then "PASTA123"%string else e
            | None => "PASTA123"%string
            end) as Hsecret.
  { unfold QR_SECRET, Js.or, Js.truthy_str. destruct (env_QR_SECRET env) as [e|]; [|done].
    by destruct (String.eqb e ""). }
  split.
  - rewrite <- Hsecret. apply string_token_valid.
  - reflexivity.
Qed.

(** ** The data helpers, one after the other *)

Lemma updateWallet_missing (id : string) (n : Z) (r l : option Z) (s : Store) :
  wallets s !! id = None →
  updateWallet id n r l s = (Returned tt, logged [UpdateWallet id n r l] s).
Proof.
  intros H. unfold updateWallet. run. by rewrite H.
Qed.

Lemma createWallet_taken (id : string) (w : Wallet) (s : Store) :
  wallets s !! id = Some w →
  createWallet id s = (Thrown SqliteConstraint, logged [InsertWallet id] s).
Proof.
  intros H. unfold createWallet. run. by rewrite H.
Qed.

(** X9.  [updateWallet] then [getWallet]: on a stored wallet the read
    returns exactly the three values written; on an id without a row the
    update is a silent no-op (no throw, no row) and the read returns [null];
    and no other wallet row is affected either way. *)
Theorem update_then_get_wallet (id : string) (n : Z) (r l : option Z) (s : Store) :
  let s1 := snd (updateWallet id n r l s) in
  fst (updateWallet id n r l s) = Returned tt
  ∧ fst (getWallet id s1)
    = Returned (match wallets s !! id with
                | Some _ => Some {| stamps := Some n; last_redeemed_at := r;
                                    last_stamped_at := l |}
                | None => None
                end)
  ∧ (wallets s !! id = None → wallets s1 = wallets s)
  ∧ (∀ id', id' ≠ id → fst (getWallet id' s1) = fst (getWallet id' s))
  ∧ customers s1 = customers s.
Proof.
  intros s1. subst s1. destruct (wallets s !! id) as [w|] eqn:Hw.
  - rewrite updateWallet_run by eauto. rewrite !getWallet_run.
    cbn [fst snd written wallets customers]. rewrite lookup_insert_eq.
    split_and!; try done.
    intros id' Hne. rewrite !getWallet_run. cbn [fst snd written wallets].
    by rewrite lookup_insert_ne.
  - rewrite updateWallet_missing by done. rewrite !getWallet_run.
    cbn [fst snd logged wallets customers]. rewrite Hw. split_and!; try done.
Qed.

Lemma createWallet_orphan (id : string) (s : Store) :
  wallets s !! id = None →
  existsb (λ c, String.eqb (c_id c) id) (customers s) = false →
  createWallet id s = (Thrown SqliteConstraint, logged [InsertWallet id] s).
Proof.
  intros Hw Hc. unfold createWallet. run. by rewrite Hw, Hc.
Qed.

(** X10.  [createWallet] then [getWallet]: for the id of a stored customer
    without a wallet row the insert succeeds and the read returns the empty
    wallet (0 stamps, both timestamps null); for an id that has a row the
    insert throws on the primary key and the stored row, stamps included,
    survives; for an id that no stored customer has the insert throws on the
    foreign key and stores nothing; and no other wallet row and no customer
    row is affected in any case. *)
Theorem create_then_get_wallet (id : string) (s : Store) :
  let s1 := snd (createWallet id s) in
  (wallets s !! id = None → (∃ c, c ∈ customers s ∧ c_id c = id) →
   fst (createWallet id s) = Returned tt
   ∧ fst (getWallet id s1)
     = Returned (Some {| stamps := Some 0; last_redeemed_at := None;
                         last_stamped_at := None |}))
  ∧ (∀ w, wallets s !! id = Some w →
     fst (createWallet id s) = Thrown SqliteConstraint
     ∧ wallets s1 = wallets s
     ∧ fst (getWallet id s1) = Returned (Some w))
  ∧ ((∀ c, c ∈ customers s → c_id c ≠ id) →
     fst (createWallet id s) = Thrown SqliteConstraint
     ∧ wallets s1 = wallets s)
  ∧ (∀ id', id' ≠ id → fst (getWallet id' s1) = fst (getWallet id' s))
  ∧ customers s1 = customers s.
Proof.
  intros s1. subst s1. destruct (wallets s !! id) as [w|] eqn:Hw.
  - rewrite (createWallet_taken id w) by done. rewrite !getWallet_run.
    cbn [fst snd logged wallets customers]. split_and!; try done.
    intros w' [= <-]. by rewrite Hw.
  - destruct (existsb (λ c, String.eqb (c_id c) id) (customers s)) eqn:Hex.
    + apply existsb_exists in Hex as (c & Hc%list_elem_of_In & Hid%String.eqb_eq).
      subst id. rewrite createWallet_run by done. rewrite !getWallet_run.
      cbn [fst snd written wallets customers]. rewrite lookup_insert_eq.
      split_and!; try done.
      * intros Hnone. by destruct (Hnone c Hc).
      * intros id' Hne. rewrite !getWallet_run. cbn [fst snd written wallets].
        by rewrite lookup_insert_ne.
    + rewrite createWallet_orphan by done. rewrite !getWallet_run.
      cbn [fst snd logged wallets customers]. split_and!; try done.
      intros _ (c & Hc & Hid). apply not_true_iff_false in Hex. destruct Hex.
      apply existsb_exists. exists c.
      split; [by apply list_elem_of_In | by apply String.eqb_eq].
Qed.

Lemma collides_iff (new c : Customer) :
  collides new c = true
  ↔ c_id c = c_id new
    ∨ (∃ e, c_email new = Some e ∧ c_email c = Some e)
    ∨ (∃ p, c_phone new = Some p ∧ c_phone c = Some p).
Proof.
  unfold collides. rewrite !orb_true_iff, bool_decide_eq_true. split.
  - intros [[H|H]|H]; [by left| |].
    + destruct (c_email new) as [e|]; [|discriminate].
      apply bool_decide_eq_true in H. right. left. eauto.
    + destruct (c_phone new) as [p|]; [|discriminate].
      apply bool_decide_eq_true in H. right. right. eauto.
  - intros [H|[(e & -> & H)|(p & -> & H)]]; [by left; left| |].
    + left. right. by apply bool_decide_eq_true.
    + right. by apply bool_decide_eq_true.
Qed.

Lemma find_absent {A : Type} (f : A → bool) (l : list A) :
  (∀ x, x ∈ l → f x = false) → List.find f l = None.
Proof.
  intros Hall. destruct (List.find f l) as [x|] eqn:Hf; [|done].
  apply find_some in Hf as [Hx%list_elem_of_In Hfx]. by rewrite (Hall x Hx) in Hfx.
Qed.

(** X11.  [createCustomer] then [getCustomerByIdentifier]: the insert
    throws exactly when a stored row has the same id, the same non-null
    email or the same non-null phone, and then no row changes; otherwise the
    row goes to the end of the table.  A lookup by its email then returns the
    new row, also when an older row has that string as its phone; a lookup by
    its phone returns the row that has that string as its email when there is
    one, and the new row otherwise; and a lookup by an identifier that is
    neither returns what it returned before. *)
Theorem create_then_get_customer (created : Z) (id : string) (nm em ph : option string)
    (s : Store) :
  let row := {| c_id := id; c_name := nm; c_email := em; c_phone := ph;
                c_created_at := Some created |} in
  let s1 := snd (createCustomer created id nm em ph s) in
  (fst (createCustomer created id nm em ph s) = Thrown SqliteConstraint
   ↔ ∃ c, c ∈ customers s
          ∧ (c_id c = id
             ∨ (∃ e, em = Some e ∧ c_email c = Some e)
             ∨ (∃ p, ph = Some p ∧ c_phone c = Some p)))
  ∧ (fst (createCustomer created id nm em ph s) = Thrown SqliteConstraint →
     customers s1 = customers s)
  ∧ (fst (createCustomer created id nm em ph s) = Returned tt →
     customers s1 = customers s ++ [row]
     ∧ (∀ e, em = Some e → fst (getCustomerByIdentifier e s1) = Returned (Some row))
     ∧ (∀ p, ph = Some p →
          ∃ c, fst (getCustomerByIdentifier p s1) = Returned (Some c)
               ∧ (c = row ∨ (c ∈ customers s ∧ c_email c = Some p))
               ∧ ((∀ c', c' ∈ customers s → c_email c' ≠ Some p) → c = row))
     ∧ (∀ i, em ≠ Some i → ph ≠ Some i →
          fst (getCustomerByIdentifier i s1) = fst (getCustomerByIdentifier i s))).
Proof.
  intros row s1. subst s1. rewrite createCustomer_run. fold row.
  destruct (existsb (collides row) (customers s)) eqn:Hex;
    cbn [fst snd logged customers].
  - split_and!; [|done|discriminate]. split; [intros _|done].
    apply existsb_exists in Hex as (c & Hc & Hcol). exists c.
    split; [by apply list_elem_of_In|]. by apply collides_iff in Hcol.
  - assert (∀ c, c ∈ customers s → collides row c = false) as Hfree.
    { intros c Hc. apply not_true_iff_false. intros Hcol.
      apply not_true_iff_false in Hex. apply Hex, existsb_exists.
      exists c. split; [by apply list_elem_of_In | done]. }
    split_and!; [|discriminate|].
    + split; [discriminate|]. intros (c & Hc & Hcol). exfalso.
      apply (not_true_iff_false _) in Hex. apply Hex, existsb_exists.
      exists c. split; [by apply list_elem_of_In|]. by apply collides_iff.
    + intros _. split_and!; [done|..].
      * intros e ->. rewrite getCustomerByIdentifier_run. cbn [fst logged customers].
        f_equal. unfold find_customer. rewrite find_app, find_absent.
        { cbn [List.find c_email row]. by rewrite bool_decide_eq_true_2. }
        intros c Hc. apply bool_decide_eq_false_2. intros Heq.
        pose proof (Hfree c Hc) as Hcol. apply not_true_iff_false in Hcol.
        apply Hcol, collides_iff. right. left. by exists e.
      * intros p ->. rewrite getCustomerByIdentifier_run. cbn [fst logged customers].
        unfold find_customer. rewrite !find_app.
        destruct (List.find (λ c, bool_decide (c_email c = Some p)) (customers s))
          as [c|] eqn:Hfe.
        { apply find_some in Hfe as [Hc%list_elem_of_In Hcp%bool_decide_eq_true].
          exists c. split_and!; [done | by right |]. intros Hno. by destruct (Hno c Hc). }
        exists row. split_and!; [|by left|done]. f_equal.
        cbn [List.find c_email row].
        destruct (bool_decide (em = Some p)); [done|].
        rewrite find_absent.
        { cbn [List.find c_phone row]. by rewrite bool_decide_eq_true_2. }
        intros c Hc. apply bool_decide_eq_false_2. intros Heq.
        pose proof (Hfree c Hc) as Hcol. apply not_true_iff_false in Hcol.
        apply Hcol, collides_iff. right. right. by exists p.
      * intros i Hem Hph. rewrite !getCustomerByIdentifier_run.
        cbn [fst logged customers]. f_equal. unfold find_customer. rewrite !find_app.
        cbn [List.find c_email c_phone row].
        rewrite !bool_decide_eq_false_2 by done.
        destruct (List.find (λ c, bool_decide (c_email c = Some i)) (customers s));
          [done|].
        by destruct (List.find (λ c, bool_decide (c_phone c = Some i)) (customers s)).
Qed.

(** * The first server: the stamp route without token or cooldown *)

Section LegacyStamps.
Import Legacy.

(** [addStamp] never returns: on either branch it calls [setStamps], whose
    statement is refused. *)
Lemma addStamp_raises (refusal : string) (customer_id : string) (db : Db) :
  addStamp refusal customer_id db = Raised refusal.
Proof. unfold addStamp, setStamps. cbv zeta. by destruct (10 <=? _). Qed.

Lemma legacy_scan_found (refusal : string) (identifier : option string) (db : Db)
    (i : string) (c : CustomerRow) :
  present identifier = Some i →
  List.find (found_by i) (l_customers db) = Some c →
  stamps_add refusal identifier db = (Failed 500 refusal, db).
Proof.
  intros Hp Hf. unfold stamps_add. by rewrite Hp, Hf, addStamp_raises.
Qed.

(** Whatever the request, the route leaves the database as it found it. *)
Lemma legacy_scan_frame (refusal : string) (identifier : option string) (db : Db) :
  snd (stamps_add refusal identifier db) = db.
Proof.
  unfold stamps_add. destruct (present identifier) as [i|]; [|done].
  destruct (List.find (found_by i) (l_customers db)) as [c|]; [|done].
  by rewrite addStamp_raises.
Qed.

(** X14.  The stamp route of the first server, run on the local SQLite
    file, never adds a stamp.  A request without an identifier (absent, null
    or empty) is answered 400, and one whose identifier matches no customer's
    email or phone is answered 404.  For a customer on file the [UPDATE] of
    [setStamps] is refused when it is prepared, and the [catch] answers 500
    with the message of the refusal, whatever the counter reads.  So no reply
    is ever a stamp, and after any number of scans the database, every
    counter included, is what it was before. *)
Theorem legacy_never_stamps (refusal : string) (identifier : option string) (db : Db) :
  (present identifier = None →
   stamps_add refusal identifier db = (Failed 400 "identifier required", db))
  ∧ (∀ i, present identifier = Some i →
       List.find (found_by i) (l_customers db) = None →
       stamps_add refusal identifier db = (Failed 404 "customer not found", db))
  ∧ (∀ i c, present identifier = Some i →
       List.find (found_by i) (l_customers db) = Some c →
       stamps_add refusal identifier db = (Failed 500 refusal, db))
  ∧ (∀ redeemed n id, fst (stamps_add refusal identifier db) ≠ Added redeemed n id)
  ∧ (∀ n, scans refusal identifier n db
          = (repeat (fst (stamps_add refusal identifier db)) n, db))
  ∧ (∀ n id, getStamps id (snd (scans refusal identifier n db)) = getStamps id db).
Proof.
  assert (∀ n, scans refusal identifier n db
               = (repeat (fst (stamps_add refusal identifier db)) n, db)) as Hscans.
  { induction n as [|n IH]; [done|]. cbn [scans repeat].
    pose proof (legacy_scan_frame refusal identifier db) as Hdb.
    destruct (stamps_add refusal identifier db) as [reply db']. cbn [fst snd] in *.
    subst db'. by rewrite IH. }
  split_and!.
  - intros Hp. unfold stamps_add. by rewrite Hp.
  - intros i Hp Hf. unfold stamps_add. by rewrite Hp, Hf.
  - intros i c Hp Hf. by apply (legacy_scan_found _ _ _ i c).
  - intros redeemed n id. unfold stamps_add.
    destruct (present identifier) as [i|]; [|done].
    destruct (List.find (found_by i) (l_customers db)) as [c|]; [|done].
    by rewrite addStamp_raises.
  - exact Hscans.
  - intros n id. by rewrite Hscans.
Qed.

End LegacyStamps.

(** * Device tokens *)

Section PushTokens.
Import Push.

Lemma elem_of_tokens_for (identifier token : string) (rows : list DeviceToken) :
  token ∈ tokens_for identifier rows
  ↔ ∃ r, r ∈ rows ∧ d_identifier r = identifier ∧ d_token r = token.
Proof.
  unfold tokens_for. rewrite list_elem_of_fmap. split.
  - intros (r & -> & [Hr Hid]%list_elem_of_In%filter_In).
    exists r. split_and!; [by apply list_elem_of_In | by apply String.eqb_eq | done].
  - intros (r & Hr & Hid & Htok). exists r. split; [done|].
    apply list_elem_of_In, filter_In. split; [by apply list_elem_of_In|].
    by apply String.eqb_eq.
Qed.

Lemma no_token_row (token : string) (rows : list DeviceToken) (r : DeviceToken) :
  existsb (has_token token) rows = false → r ∈ rows → d_token r ≠ token.
Proof.
  intros Hex Hr Heq. apply not_true_iff_false in Hex. apply Hex, existsb_exists.
  exists r. split; [by apply list_elem_of_In | by apply String.eqb_eq].
Qed.

(** A row after an upsert either carries the token, and then the new
    identifier and platform, or is a row that was there with another token. *)
Lemma upsert_rows (nowS : Z) (identifier token : string) (platform : option string)
    (rows : list DeviceToken) (r : DeviceToken) :
  r ∈ upsert nowS identifier token platform rows →
  (d_token r = token ∧ d_identifier r = identifier ∧ d_platform r = platform
   ∧ d_updated_at r = nowS)
  ∨ (d_token r ≠ token ∧ r ∈ rows).
Proof.
  unfold upsert. destruct (existsb (has_token token) rows) eqn:Hex.
  - intros (r0 & -> & Hr0)%list_elem_of_fmap. unfold has_token.
    destruct (String.eqb_spec (d_token r0) token) as [Heq|Hne]; [left; by cbn|by right].
  - intros [Hr|Hr%list_elem_of_singleton]%elem_of_app.
    + right. split; [by eapply no_token_row | done].
    + left. by subst r.
Qed.

(** Rows with another token survive an upsert untouched. *)
Lemma upsert_keeps (nowS : Z) (identifier token : string) (platform : option string)
    (rows : list DeviceToken) (r : DeviceToken) :
  r ∈ rows → d_token r ≠ token → r ∈ upsert nowS identifier token platform rows.
Proof.
  intros Hr Hne. unfold upsert. destruct (existsb (has_token token) rows).
  - apply list_elem_of_fmap. exists r. split; [|done]. unfold has_token.
    by destruct (String.eqb_spec (d_token r) token).
  - apply elem_of_app. by left.
Qed.

(** The token is in the table after an upsert, under the identifier. *)
Lemma upsert_has (nowS : Z) (identifier token : string) (platform : option string)
    (rows : list DeviceToken) :
  ∃ r, r ∈ upsert nowS identifier token platform rows
       ∧ d_identifier r = identifier ∧ d_token r = token.
Proof.
  unfold upsert. destruct (existsb (has_token token) rows) eqn:Hex.
  - apply existsb_exists in Hex as (r0 & Hr0%list_elem_of_In & Htok).
    eexists. split; [apply list_elem_of_fmap; exists r0; split; [reflexivity|done]|].
    rewrite Htok. cbn. split; [done|]. by apply String.eqb_eq.
  - eexists. split; [apply elem_of_app; right; by apply list_elem_of_singleton|]. done.
Qed.

(** X16.  A device token belongs to one identifier at a time.  After a
    successful registration the token is among the tokens of the identifier
    it was registered for and among those of no other, wherever it was
    before; and which other tokens each identifier has is unchanged. *)
Theorem register_moves_token (nowS : Z) (b : RegisterBody) (rows : list DeviceToken)
    (identifier token : string) :
  present (r_identifier b) = Some identifier →
  present (r_token b) = Some token →
  let rows' := snd (register nowS b rows) in
  fst (register nowS b rows) = Registered
  ∧ token ∈ tokens_for identifier rows'
  ∧ (∀ other, other ≠ identifier → token ∉ tokens_for other rows')
  ∧ (∀ who t, t ≠ token → t ∈ tokens_for who rows' ↔ t ∈ tokens_for who rows).
Proof.
  intros Hi Ht rows'. subst rows'. unfold register. rewrite Hi, Ht. cbn [fst snd].
  split_and!; [done|..].
  - apply elem_of_tokens_for, upsert_has.
  - intros other Hne (r & Hr & Hid & Htok)%elem_of_tokens_for.
    apply upsert_rows in Hr as [(_ & Hid' & _)|[Htok' _]]; congruence.
  - intros who t Hne. rewrite !elem_of_tokens_for. split.
    + intros (r & Hr & Hid & Htok).
      apply upsert_rows in Hr as [(Htok' & _)|[_ Hr]]; [congruence|eauto].
    + intros (r & Hr & Hid & Htok). exists r. split; [|done].
      apply upsert_keeps; [done | congruence].
Qed.

Lemma register_moves_token_witness :
  present (Some "a@x.com"%string) = Some "a@x.com"%string
  ∧ "fcm-1"%string
    ∈ tokens_for "a@x.com"
        (snd (register 1762603200
                {| r_identifier := Some "a@x.com"%string; r_token := Some "fcm-1"%string;
                   r_platform := None |}
                [{| d_identifier := "b@x.com"; d_token := "fcm-1"; d_platform := None;
                    d_created_at := 1762600000; d_updated_at := 1762600000 |}])).
Proof.
  split; [reflexivity|].
  exact (proj1 (proj2 (register_moves_token 1762603200
                         {| r_identifier := Some "a@x.com"%string;
                            r_token := Some "fcm-1"%string; r_platform := None |}
                         [{| d_identifier := "b@x.com"; d_token := "fcm-1";
                             d_platform := None; d_created_at := 1762600000;
                             d_updated_at := 1762600000 |}]
                         "a@x.com" "fcm-1" eq_refl eq_refl))).
Defined.

(** X17.  Registration keeps tokens unique and registers each once: on a
    table without duplicate tokens, registering a token that is stored adds
    no row and keeps the row's [created_at]; registering a new one adds
    exactly one row; the tokens stay without duplicates; and a request that
    lacks the identifier or the token is answered 400 and changes nothing. *)
Theorem register_keeps_tokens_unique (nowS : Z) (b : RegisterBody)
    (rows : list DeviceToken) :
  NoDup (map d_token rows) →
  let rows' := snd (register nowS b rows) in
  NoDup (map d_token rows')
  ∧ (fst (register nowS b rows) = Registered →
     ∃ token, present (r_token b) = Some token
       ∧ length rows' = (if existsb (has_token token) rows
                         then length rows else S (length rows))
       ∧ map d_created_at rows' = map d_created_at rows
                                  ++ (if existsb (has_token token) rows
                                      then [] else [nowS]))
  ∧ (fst (register nowS b rows) ≠ Registered →
     fst (register nowS b rows) = Failed 400 "identifier and token required"
     ∧ rows' = rows).
Proof.
  intros Hnd rows'. subst rows'. unfold register.
  destruct (present (r_identifier b)) as [identifier|];
    [|cbn [fst snd]; split_and!; done].
  destruct (present (r_token b)) as [token|]; [|cbn [fst snd]; split_and!; done].
  cbn [fst snd]. unfold upsert.
  destruct (existsb (has_token token) rows) eqn:Hex.
  - assert (∀ f : DeviceToken → DeviceToken,
              (∀ r, d_token (f r) = d_token r) → map d_token (map f rows) = map d_token rows)
      as Hsame.
    { intros f Hf. rewrite map_map. by apply map_ext. }
    split_and!; [ | | done].
    + rewrite Hsame; [done|]. intros r. by destruct (has_token token r).
    + intros _. exists token. rewrite Hex. split_and!; [done | apply length_map |].
      rewrite app_nil_r, map_map. apply map_ext. intros r.
      by destruct (has_token token r).
    - split_and!; [ | | done].
    + rewrite map_app. cbn [map d_token]. apply NoDup_app. split_and!; [done| |].
      * intros t (r & -> & Hr)%list_elem_of_fmap Hin%list_elem_of_singleton.
        by eapply no_token_row.
      * apply NoDup_singleton.
    + intros _. exists token. rewrite Hex. split_and!; [done| |].
      * rewrite length_app. cbn. lia.
      * by rewrite map_app.
Qed.

Lemma register_keeps_tokens_unique_witness :
  NoDup (map d_token
           [{| d_identifier := "b@x.com"; d_token := "fcm-1"; d_platform := None;
               d_created_at := 1762600000; d_updated_at := 1762600000 |}])
  ∧ NoDup (map d_token
             (snd (register 1762603200
                     {| r_identifier := Some "a@x.com"%string;
                        r_token := Some "fcm-2"%string; r_platform := None |}
                     [{| d_identifier := "b@x.com"; d_token := "fcm-1"; d_platform := None;
                         d_created_at := 1762600000; d_updated_at := 1762600000 |}]))).
Proof.
  assert (NoDup (map d_token
           [{| d_identifier := "b@x.com"; d_token := "fcm-1"; d_platform := None;
               d_created_at := 1762600000; d_updated_at := 1762600000 |}])) as Hnd
    by apply NoDup_singleton.
  split; [exact Hnd|].
  exact (proj1 (register_keeps_tokens_unique 1762603200
                  {| r_identifier := Some "a@x.com"%string;
                     r_token := Some "fcm-2"%string; r_platform := None |}
                  _ Hnd)).
Defined.

(** X18.  Once a device registered for an identifier, a test push for that
    identifier is never answered 404: with Firebase configured the reply is
    what Firebase makes of the identifier's tokens, the device's among them
    (the two counts, or 500 when the call throws); without Firebase
    configured it is 503 and nothing is sent. *)
Theorem test_push_after_register (nowS : Z) (rb : RegisterBody) (tb : TestBody)
    (rows : list DeviceToken)
    (sendMulticast : Notification → list string → option (Z * Z))
    (identifier token : string) :
  present (r_identifier rb) = Some identifier →
  present (r_token rb) = Some token →
  present (t_identifier tb) = Some identifier →
  let rows' := snd (register nowS rb rows) in
  token ∈ tokens_for identifier rows'
  ∧ test true sendMulticast tb rows'
    = match sendMulticast
              {| n_title := or_default (t_title tb) "PastaPass";
                 n_body := or_default (t_body tb) "Test push 🚀" |}
              (tokens_for identifier rows') with
      | Some (sent, failed) => Sent sent failed
      | None => Failed 500 "failed to send test push"
      end
  ∧ (∀ msg, test true sendMulticast tb rows' ≠ Failed 404 msg)
  ∧ test false sendMulticast tb rows' = Failed 503 "push not configured".
Proof.
  intros Hi Ht Hti rows'.
  assert (token ∈ tokens_for identifier rows') as Hin.
  { subst rows'. unfold register. rewrite Hi, Ht. cbn [snd].
    apply elem_of_tokens_for, upsert_has. }
  assert (test true sendMulticast tb rows'
          = match sendMulticast
                    {| n_title := or_default (t_title tb) "PastaPass";
                       n_body := or_default (t_body tb) "Test push 🚀" |}
                    (tokens_for identifier rows') with
            | Some (sent, failed) => Sent sent failed
            | None => Failed 500 "failed to send test push"
            end) as Hrun.
  { unfold test. cbn [negb]. rewrite Hti.
    destruct (tokens_for identifier rows') as [|t0 ts] eqn:Hts; [|done].
    by apply elem_of_nil in Hin. }
  split_and!; [done | done | | done].
  intros msg. rewrite Hrun. by destruct (sendMulticast _ _) as [[sent failed]|].
Qed.

Lemma test_push_after_register_witness :
  present (Some "a@x.com"%string) = Some "a@x.com"%string
  ∧ test true (λ _ tokens, Some (Z.of_nat (length tokens), 0))
      {| t_identifier := Some "a@x.com"%string; t_title := None; t_body := None |}
      (snd (register 1762603200
              {| r_identifier := Some "a@x.com"%string; r_token := Some "fcm-1"%string;
                 r_platform := Some "ios"%string |} []))
    = Sent 1 0.
Proof.
  split; [reflexivity|].
  exact (proj1 (proj2 (test_push_after_register 1762603200
                         {| r_identifier := Some "a@x.com"%string;
                            r_token := Some "fcm-1"%string;
                            r_platform := Some "ios"%string |}
                         {| t_identifier := Some "a@x.com"%string; t_title := None;
                            t_body := None |}
                         [] (λ _ tokens, Some (Z.of_nat (length tokens), 0))
                         "a@x.com" "fcm-1" eq_refl eq_refl eq_refl))).
Defined.

End PushTokens.

(** * Schema bootstrap *)

Section SchemaBootstrap.
Import Schema.

Lemma existsb_eqb_elem (x : string) (l : list string) :
  existsb (String.eqb x) l = true ↔ x ∈ l.
Proof.
  rewrite existsb_exists. split.
  - intros (y & Hy & ->%String.eqb_eq). by apply list_elem_of_In.
  - intros Hx. exists x. split; [by apply list_elem_of_In | apply String.eqb_refl].
Qed.

Lemma createTableIfNotExists_lookup (name : string) (columns : list string)
    (c : Catalog) (m : string) :
  createTableIfNotExists name columns c !! m
  = if decide (name = m) then Some (default columns (c !! name)) else c !! m.
Proof.
  unfold createTableIfNotExists.
  destruct (decide (name = m)) as [<-|Hne].
  - destruct (c !! name) as [cols|] eqn:Hc; [by rewrite Hc|]. by rewrite lookup_insert_eq.
  - destruct (c !! name); [done|]. by rewrite lookup_insert_ne.
Qed.

Lemma tryAddColumn_lookup (name column : string) (c : Catalog) (m : string) :
  tryAddColumn name column c !! m
  = if decide (name = m)
    then match c !! name with
         | Some cols => Some (if existsb (String.eqb column) cols
                              then cols else cols ++ [column])
         | None => None
         end
    else c !! m.
Proof.
  unfold tryAddColumn, addColumn.
  destruct (decide (name = m)) as [<-|Hne].
  - destruct (c !! name) as [cols|] eqn:Hc; [|by rewrite Hc].
    destruct (existsb _ cols); [by rewrite Hc|]. by rewrite lookup_insert_eq.
  - destruct (c !! name) as [cols|]; [|done].
    destruct (existsb _ cols); [done|]. by rewrite lookup_insert_ne.
Qed.

(** What the bootstrap leaves under [wallets]: the columns that were there,
    or the declared ones, with [last_stamped_at] added when it was missing. *)
Lemma initSchema_wallets (c : Catalog) :
  initSchema c !! "wallets"%string
  = Some (match c !! "wallets"%string with
          | Some cols => if existsb (String.eqb "last_stamped_at") cols
                         then cols else cols ++ ["last_stamped_at"%string]
          | None => wallets_columns
          end).
Proof.
  unfold initSchema. rewrite tryAddColumn_lookup, decide_True by done.
  rewrite !createTableIfNotExists_lookup, decide_True, decide_False by done.
  by destruct (c !! "wallets"%string).
Qed.

Lemma initSchema_others (c : Catalog) (name : string) :
  name ≠ "wallets"%string →
  initSchema c !! name
  = if decide (name = "customers"%string)
    then Some (default customers_columns (c !! "customers"%string))
    else c !! name.
Proof.
  intros Hn. unfold initSchema.
  rewrite tryAddColumn_lookup, decide_False by done.
  rewrite createTableIfNotExists_lookup, decide_False by done.
  rewrite createTableIfNotExists_lookup.
  destruct (decide (name = "customers"%string)) as [->|Hne].
  - by rewrite decide_True.
  - by rewrite decide_False.
Qed.

(** X19.  The schema bootstrap drops nothing and repairs an older
    database: every table that exists keeps its columns, in order; after
    it [customers] and [wallets] exist and [wallets] has the column
    [last_stamped_at]; a [wallets] table made by the server before the
    cooldown (three columns) comes out with the four declared ones; and no
    other table is touched. *)
Theorem initSchema_migrates (c : Catalog) :
  (∀ name cols, c !! name = Some cols →
     ∃ more, initSchema c !! name = Some (cols ++ more))
  ∧ is_Some (initSchema c !! "customers"%string)
  ∧ (∃ cols, initSchema c !! "wallets"%string = Some cols
             ∧ "last_stamped_at"%string ∈ cols)
  ∧ (c !! "wallets"%string
     = Some ["customer_id"; "stamps"; "last_redeemed_at"]%string →
     initSchema c !! "wallets"%string = Some wallets_columns)
  ∧ (c !! "wallets"%string = None →
     initSchema c !! "wallets"%string = Some wallets_columns)
  ∧ (∀ name, name ≠ "customers"%string → name ≠ "wallets"%string →
     initSchema c !! name = c !! name).
Proof.
  split_and!.
  - intros name cols Hcols. destruct (decide (name = "wallets"%string)) as [->|Hw].
    + rewrite initSchema_wallets, Hcols.
      destruct (existsb _ cols); [exists []; by rewrite app_nil_r | eauto].
    + rewrite initSchema_others by done. exists []. rewrite app_nil_r.
      destruct (decide _) as [->|]; [by rewrite Hcols | done].
  - rewrite initSchema_others by done. rewrite decide_True by done. eauto.
  - rewrite initSchema_wallets. eexists. split; [done|].
    destruct (c !! "wallets"%string) as [cols|].
    + destruct (existsb _ cols) eqn:Hex; [by apply existsb_eqb_elem|].
      apply elem_of_app. right. by apply list_elem_of_singleton.
    + unfold wallets_columns. repeat constructor.
  - intros Hw. by rewrite initSchema_wallets, Hw.
  - intros Hw. by rewrite initSchema_wallets, Hw.
  - intros name Hc Hw. rewrite initSchema_others by done. by rewrite decide_False.
Qed.

(** X20.  The schema bootstrap is idempotent: running it on a database it
    has already prepared changes nothing (the second [ALTER TABLE] is
    refused as a duplicate column and the refusal is swallowed). *)
Theorem initSchema_idempotent (c : Catalog) :
  initSchema (initSchema c) = initSchema c.
Proof.
  apply map_eq. intros name. destruct (decide (name = "wallets"%string)) as [->|Hw].
  - rewrite (initSchema_wallets (initSchema c)), initSchema_wallets.
    f_equal. destruct (c !! "wallets"%string) as [cols|].
    + destruct (existsb _ cols) eqn:Hex; [by rewrite Hex|].
      rewrite existsb_app. cbn. by rewrite orb_true_r.
    + reflexivity.
  - rewrite (initSchema_others (initSchema c)) by done.
    destruct (decide (name = "customers"%string)) as [->|Hc]; [|done].
    rewrite initSchema_others by done. rewrite decide_True by done. done.
Qed.

End SchemaBootstrap.

(** * The earlier draft: a reward that sticks *)

(** X21.  In the draft of [src/unnamed/part_000] no scan changes the
    database.  For a customer on file whose counter reads 9 or more, the
    tenth stamp is announced but never written: the scan answers [redeemed]
    with 0 stamps and returns before the [UPDATE], so the next scan, and every
    one after it, redeems again.  Below 9 the scan reaches the [UPDATE], which
    is refused when it is prepared, and the [catch] answers 500 with the
    message of the refusal. *)
Theorem draft_reward_sticks (refusal : string) (i : string) (c : Legacy.CustomerRow)
    (db : Legacy.Db) :
  i ≠ ""%string →
  List.find (Legacy.found_by i) (Legacy.l_customers db) = Some c →
  (9 ≤ Legacy.getStamps (Legacy.lc_id c) db →
   Draft.stamps_add refusal (Some i) db = (Legacy.Added true 0 (Legacy.lc_id c), db)
   ∧ Draft.stamps_add refusal (Some i) (snd (Draft.stamps_add refusal (Some i) db))
     = (Legacy.Added true 0 (Legacy.lc_id c), db))
  ∧ (Legacy.getStamps (Legacy.lc_id c) db < 9 →
     Draft.stamps_add refusal (Some i) db = (Legacy.Failed 500 refusal, db))
  ∧ snd (Draft.stamps_add refusal (Some i) db) = db.
Proof.
  intros Hi Hf.
  assert (Draft.stamps_add refusal (Some i) db
          = if 10 <=? Legacy.getStamps (Legacy.lc_id c) db + 1
            then (Legacy.Added true 0 (Legacy.lc_id c), db)
            else (Legacy.Failed 500 refusal, db)) as Hrun.
  { unfold Draft.stamps_add, Draft.addStamp, Legacy.setStamps.
    rewrite present_some by done. rewrite Hf. cbv zeta.
    fold (Legacy.getStamps (Legacy.lc_id c) db).
    by destruct (10 <=? Legacy.getStamps (Legacy.lc_id c) db + 1). }
  rewrite Hrun.
  destruct (Z.leb_spec 10 (Legacy.getStamps (Legacy.lc_id c) db + 1)) as [Hten|Hless];
    cbn [snd].
  - split_and!; [|lia|done]. intros _. split; [done|].
    rewrite Hrun. by destruct (Z.leb_spec 10 (Legacy.getStamps (Legacy.lc_id c) db + 1)); [|lia].
  - split_and!; [lia|done|done].
Qed.

Lemma draft_reward_sticks_witness :
  9 ≤ Legacy.getStamps "K7Q2M9XA" Draft.nine
  ∧ Draft.stamps_add Legacy.no_such_column (Some "a@x.com"%string) Draft.nine
    = (Legacy.Added true 0 "K7Q2M9XA", Draft.nine)
  ∧ Draft.stamps_add Legacy.no_such_column (Some "a@x.com"%string) Legacy.demo
    = (Legacy.Failed 500 Legacy.no_such_column, Legacy.demo).
Proof.
  assert (9 ≤ Legacy.getStamps "K7Q2M9XA" Draft.nine) as Hnine
    by (vm_compute; discriminate).
  assert (Legacy.getStamps "K7Q2M9XA" Legacy.demo < 9) as Hzero
    by (vm_compute; reflexivity).
  split_and!; [exact Hnine | |].
  - refine (proj1 (proj1 (draft_reward_sticks Legacy.no_such_column "a@x.com"
                     {| Legacy.lc_id := "K7Q2M9XA"; Legacy.lc_name := Some "Anna"%string;
                        Legacy.lc_email := Some "a@x.com"%string; Legacy.lc_phone := None;
                        Legacy.lc_created_at := 1762603200;
                        Legacy.lc_updated_at := 1762603200 |}
                     Draft.nine _ eq_refl) Hnine)).
    discriminate.
  - refine (proj1 (proj2 (draft_reward_sticks Legacy.no_such_column "a@x.com"
                     {| Legacy.lc_id := "K7Q2M9XA"; Legacy.lc_name := Some "Anna"%string;
                        Legacy.lc_email := Some "a@x.com"%string; Legacy.lc_phone := None;
                        Legacy.lc_created_at := 1762603200;
                        Legacy.lc_updated_at := 1762603200 |}
                     Legacy.demo _ eq_refl)) Hzero).
    discriminate.
Defined.

(** * The card repeats every eleven scans *)

Section Period.
Variables (env : Env) (tok : Js.Val) (who : string) (ts : nat → Readings).
Hypothesis tok_valid : isValidStaticToken env tok = Returned true.
Hypothesis who_present : who ≠ ""%string.
Hypothesis clock_real : ∀ k, COOLDOWN_MS ≤ now (ts k).
Hypothesis clock_apart : ∀ k, COOLDOWN_MS ≤ now (ts (S k)) - stampedAt (ts k).

Lemma scans_cycle (n : nat) :
  ∀ (k0 : nat) (s : Store) (c : Customer) (w : Wallet),
    find_customer who (customers s) = Some c →
    wallets s !! c_id c = Some w →
    allowed (ts k0) w →
    0 ≤ Js.or0 (stamps w) ≤ 10 →
    fst (serve env (map (scan_at tok who ts) (seq k0 n)) s)
    = map (λ j, Stamped (c_id c)
                  ((Js.or0 (stamps w) + Z.of_nat j) mod 11)
                  ((Js.or0 (stamps w) + Z.of_nat j) mod 11 =? 0)
                  (if (Js.or0 (stamps w) + Z.of_nat j) mod 11 =? 10
                   then Some rewardText else None))
        (seq 1 n).
Proof.
  induction n as [|n IH]; intros k0 s c w Hf Hw Hok Hm; [done|].
  cbn [seq map]. rewrite serve_fst_cons. cbn [handle scan_at].
  set (m := Js.or0 (stamps w)) in *.
  destruct (Z.lt_ge_cases m 10) as [Hlt|Hge].
  - rewrite (stamps_add_accrue env (ts k0) _ s who c w);
      [ | done | by apply present_some | done.. ].
    cbn [fst snd]. fold m. f_equal.
    + change (Z.of_nat 1) with 1. rewrite Z.mod_small by lia.
      by destruct (Z.eqb_spec (m + 1) 0); [lia|].
    + rewrite (IH (S k0) _ c (accrued (ts k0) w)); cycle 1.
      * done.
      * cbn [written wallets]. apply lookup_insert_eq.
      * unfold allowed, accrued. cbn [last_stamped_at]. apply clock_apart.
      * unfold accrued. cbn [stamps]. rewrite or0_some. fold m. lia.
      * rewrite <- (seq_shift n 1), map_map. apply map_ext. intros j.
        unfold accrued. cbn [stamps]. rewrite or0_some. fold m.
        by replace (m + 1 + Z.of_nat j) with (m + Z.of_nat (S j)) by lia.
  - assert (m = 10) as Hten by lia.
    rewrite (stamps_add_redeem env (ts k0) _ s who c w);
      [ | done | by apply present_some | done | done | done | done | by fold m ].
    cbn [fst snd]. f_equal.
    + rewrite Hten. reflexivity.
    + rewrite (IH (S k0) _ c (redeemed (ts k0))); cycle 1.
      * done.
      * cbn [written wallets]. apply lookup_insert_eq.
      * unfold allowed, redeemed. cbn [last_stamped_at]. apply clock_apart.
      * cbn. lia.
      * rewrite <- (seq_shift n 1), map_map. apply map_ext. intros j.
        replace (Js.or0 (stamps (redeemed (ts k0)))) with 0 by reflexivity.
        rewrite Hten.
        replace (10 + Z.of_nat (S j)) with (0 + Z.of_nat j + 1 * 11) by lia.
        by rewrite Z.mod_add.
Qed.

End Period.

(** X22.  The card of the current server has period 11.  After a signup on
    the empty store, the [j]-th of any number of scans with the cooldown run
    out between them returns [j mod 11] stamps, carries the reward message
    exactly when that is 10, and redeems exactly when it is 0: ten scans
    fill the card, the eleventh empties it, and the twelfth starts the next
    card at 1. *)
Theorem card_period_eleven (env : Env) (tok : Js.Val) (who : string)
    (nm : option string) (ts : nat → Readings) (n : nat) :
  isValidStaticToken env tok = Returned true →
  who ≠ ""%string →
  (∀ k, COOLDOWN_MS ≤ now (ts k)) →
  (∀ k, COOLDOWN_MS ≤ now (ts (S k)) - stampedAt (ts k)) →
  fst (serve env
         (PostSignup (ts 0%nat) {| name := nm; email := Some who; phone := None |}
          :: map (scan_at tok who ts) (seq 1 n))
         fresh)
  = SignedUp who nm (Some who) None 0
    :: map (λ j, Stamped who (Z.of_nat j mod 11) (Z.of_nat j mod 11 =? 0)
                   (if Z.of_nat j mod 11 =? 10 then Some rewardText else None))
         (seq 1 n).
Proof.
  intros Hv Hwho Hreal Hapart.
  rewrite serve_fst_cons. cbn [handle].
  rewrite (signup_fresh (ts 0%nat) nm who Hwho). cbn [fst snd]. f_equal.
  set (row := {| c_id := who; c_name := nm; c_email := Some who; c_phone := None;
                 c_created_at := Some (created (ts 0%nat)) |}).
  rewrite (scans_cycle env tok who ts Hv Hwho Hreal Hapart n 1 _ row new_wallet).
  - done.
  - cbn [customers]. by apply find_customer_single.
  - cbn [wallets c_id row]. apply lookup_insert_eq.
  - done.
  - cbn. lia.
Qed.

Lemma card_period_eleven_witness :
  isValidStaticToken Scenario.env (Js.Str "PASTA123") = Returned true
  ∧ fst (serve Scenario.env
           (PostSignup (Scenario.at_ 180000 0)
              {| name := None; email := Some "a@x.com"%string; phone := None |}
            :: map (scan_at (Js.Str "PASTA123") "a@x.com" (Scenario.at_ 180000)) (seq 1 23))
           fresh)
    = SignedUp "a@x.com" None (Some "a@x.com"%string) None 0
      :: map (λ j, Stamped "a@x.com" (Z.of_nat j mod 11) (Z.of_nat j mod 11 =? 0)
                     (if Z.of_nat j mod 11 =? 10 then Some rewardText else None))
           (seq 1 23).
Proof.
  split; [reflexivity|].
  apply (card_period_eleven Scenario.env (Js.Str "PASTA123") "a@x.com" None
           (Scenario.at_ 180000) 23).
  - reflexivity.
  - discriminate.
  - intros k. unfold Scenario.at_, Scenario.t0, COOLDOWN_MS. simpl. lia.
  - intros k. unfold Scenario.at_, Scenario.t0, COOLDOWN_MS. simpl. lia.
Defined.
